(** * Orientation consensus: agents, environment and trial driver

    A shallow embedding of [agent.py] and [consensus_environment.py].
    The value [None] is read as [option], a raised exception as [None] in
    the option monad, and the environment's [agent_list] as a store of
    agents addressed by position, so that in-place mutation becomes an
    update of one entry.

    Python floats are read as real numbers.  Comparisons are exact in
    both; an arithmetic operation on floats is the operation on reals
    followed by a rounding, which the embedding over the reals leaves out.
    The properties stated of the code are meant to be ones that rounding
    keeps: closed ranges whose bounds are floats, values computed without
    rounding, frames and control flow.  Where the rounding of one operation
    decides the outcome, the code is embedded again over binary64 floats,
    in the part on rounding. *)

From Stdlib Require Import PrimFloat.
From Stdlib Require FloatOps SpecFloat.
From Stdlib Require Import QArith Reals Lra Lia ZArith.
From stdpp Require Import base decidable option list.

Local Open Scope R_scope.

(** Comparisons of floats are decided; the instances let the source's
    [if] chains be written with [decide]. *)
#[global] Instance Rlt_decision (x y : R) : Decision (x < y) := Rlt_dec x y.
#[global] Instance Rle_decision (x y : R) : Decision (x <= y) := Rle_dec x y.
#[global] Instance Rgt_decision (x y : R) : Decision (x > y) := Rgt_dec x y.
#[global] Instance Rge_decision (x y : R) : Decision (x >= y) := Rge_dec x y.

(** [l[i] = v] on a Python list: an index past the end raises. *)
Definition list_store {A} (l : list A) (i : nat) (v : A) : option (list A) :=
  if decide (i < length l)%nat then Some (<[i := v]> l) else None.

(** Python's [min(a, b)]: the first argument unless the second is smaller. *)
Definition py_min (a b : R) : R := if decide (b < a) then b else a.

(** ** geometry *)

Module geometry.

Record Point := mkPoint { x : R; y : R }.

(** The two-argument arctangent of [math], with values in (-pi, pi]. *)
Definition atan2 (b a : R) : R :=
  if decide (0 < a) then atan (b / a)
  else if decide (a < 0) then
    (if decide (0 <= b) then atan (b / a) + PI else atan (b / a) - PI)
  else if decide (0 < b) then PI / 2
  else if decide (b < 0) then - PI / 2
  else 0.

(** Modelled from the spec: [geometry.py] is not among the sources.
    "converts degrees to radians". *)
Definition deg_to_rad (degrees : R) : R := degrees / 180 * PI.

(** Modelled from the spec: [Point.angle] of the missing [geometry.py],
    "the polar angle of the vector from the origin to this point, in
    degrees, normalized to [0, 360)". *)
Definition angle (p : Point) : R :=
  let ang := atan2 (y p) (x p) / PI * 180 in
  if decide (ang < 0) then ang + 360 else ang.

(** Modelled from the spec: [Point.distance] of the missing [geometry.py],
    "Euclidean distance between two points". *)
Definition distance (p q : Point) : R :=
  let dx := x p - x q in
  let dy := y p - y q in
  sqrt (dx * dx + dy * dy).

(** Modelled from the spec: [sum_points] of the missing [geometry.py],
    "a new Point equal to the component-wise sum". *)
Definition sum_points (a b : Point) : Point :=
  mkPoint (x a + x b) (y a + y b).

End geometry.

(** ** agent *)

Module agent.

Definition MAX_ANGULAR_VEL : R := 3.0.

(** The instance attributes of [Agent].  [radar_angle] and
    [radar_position] are assigned the same literal table by every
    constructor call and written by no method, so they are constants
    below rather than fields. *)
Record Agent := mkAgent {
  agent_id : Z;
  heading : R;
  angular_vel : R;
  radius : R;
  location : geometry.Point;
  mode : Z;
  radar_range : R;
  msg_rcv_1 : option R;
  msg_rcv_2 : option R;
  msg_sen_1 : R;
  msg_sen_2 : R;
  radar : list (option R)
}.

Definition radar_angle : list (R * R) :=
  [(345.0, 375.0); (15.0, 45.0); (45.0, 90.0); (90.0, 150.0);
   (150.0, 210.0); (210.0, 270.0); (270.0, 315.0); (315.0, 345.0)].

Definition radar_position : list R :=
  0.0 :: map (fun span : R * R => (span.1 + span.2) / 2) (drop 1 radar_angle).

(** [Agent.__init__]; the [mode] argument is ignored by the source. *)
Definition init (location : geometry.Point) (agent_id : Z)
    (heading angular_vel radius : R) (_mode : Z) (radar_range : R) : Agent :=
  mkAgent agent_id heading angular_vel radius location 1 radar_range
          None None 0 0 (replicate (length radar_angle) None).

(** Attribute assignments. *)
Definition set_mode (a : Agent) (v : Z) : Agent :=
  mkAgent (agent_id a) (heading a) (angular_vel a) (radius a) (location a)
          v (radar_range a) (msg_rcv_1 a) (msg_rcv_2 a)
          (msg_sen_1 a) (msg_sen_2 a) (radar a).
Definition set_angular_vel (a : Agent) (v : R) : Agent :=
  mkAgent (agent_id a) (heading a) v (radius a) (location a)
          (mode a) (radar_range a) (msg_rcv_1 a) (msg_rcv_2 a)
          (msg_sen_1 a) (msg_sen_2 a) (radar a).
Definition set_heading (a : Agent) (v : R) : Agent :=
  mkAgent (agent_id a) v (angular_vel a) (radius a) (location a)
          (mode a) (radar_range a) (msg_rcv_1 a) (msg_rcv_2 a)
          (msg_sen_1 a) (msg_sen_2 a) (radar a).
Definition set_msg_sen_1 (a : Agent) (v : R) : Agent :=
  mkAgent (agent_id a) (heading a) (angular_vel a) (radius a) (location a)
          (mode a) (radar_range a) (msg_rcv_1 a) (msg_rcv_2 a)
          v (msg_sen_2 a) (radar a).
Definition set_msg_sen_2 (a : Agent) (v : R) : Agent :=
  mkAgent (agent_id a) (heading a) (angular_vel a) (radius a) (location a)
          (mode a) (radar_range a) (msg_rcv_1 a) (msg_rcv_2 a)
          (msg_sen_1 a) v (radar a).
Definition set_msg_rcv_1 (a : Agent) (v : option R) : Agent :=
  mkAgent (agent_id a) (heading a) (angular_vel a) (radius a) (location a)
          (mode a) (radar_range a) v (msg_rcv_2 a)
          (msg_sen_1 a) (msg_sen_2 a) (radar a).
Definition set_msg_rcv_2 (a : Agent) (v : option R) : Agent :=
  mkAgent (agent_id a) (heading a) (angular_vel a) (radius a) (location a)
          (mode a) (radar_range a) (msg_rcv_1 a) v
          (msg_sen_1 a) (msg_sen_2 a) (radar a).
Definition set_radar (a : Agent) (v : list (option R)) : Agent :=
  mkAgent (agent_id a) (heading a) (angular_vel a) (radius a) (location a)
          (mode a) (radar_range a) (msg_rcv_1 a) (msg_rcv_2 a)
          (msg_sen_1 a) (msg_sen_2 a) v.

(** [find_radar_index]: the first span that strictly contains the angle,
    and 0 from the loop's [else] when the scan ends without a match. *)
Fixpoint find_radar_index_from (i : nat) (spans : list (R * R)) (angle : R)
    : nat :=
  match spans with
  | [] => 0%nat
  | span :: rest =>
      if decide (angle > span.1 /\ angle < span.2) then i
      else find_radar_index_from (S i) rest angle
  end.

Definition find_radar_index (angle : R) : nat :=
  find_radar_index_from 0 radar_angle angle.

(** [create_net_inputs]: the scan for the first occupied slot leaves
    [angle_of_reception] unbound when every slot is [None]. *)
Fixpoint first_signal (i : nat) (slots : list (option R))
    : option (nat * R) :=
  match slots with
  | [] => None
  | Some msg :: _ => Some (i, msg)
  | None :: rest => first_signal (S i) rest
  end.

Definition create_net_inputs (self : Agent) : option (list (option R)) :=
  '(i, msg) ← first_signal 0 (radar self);
  angle_of_reception ← radar_position !! i;
  let angle_of_emission := msg in
  Some [Some (IZR (mode self)); Some (angle_of_reception / 360.0);
        Some (angle_of_emission / 360.0); msg_rcv_1 self; msg_rcv_2 self].

(** [apply_outputs]; reading [outputs[k]] past the end raises. *)
Definition apply_outputs (self : Agent) (outputs : list R) : option Agent :=
  out0 ← outputs !! 0%nat;
  let self := if decide (out0 < 0.5) then set_mode self 0
              else set_mode self 1 in
  out1 ← outputs !! 1%nat;
  let new_ang_vel := out1 - 0.5 in
  let self :=
    if decide (new_ang_vel >= MAX_ANGULAR_VEL)
    then set_angular_vel self MAX_ANGULAR_VEL
    else if decide (new_ang_vel < - MAX_ANGULAR_VEL)
    then set_angular_vel self (- MAX_ANGULAR_VEL)
    else set_angular_vel self new_ang_vel in
  let self := set_heading self (heading self + 10 * angular_vel self) in
  let self :=
    if decide (heading self < 0) then set_heading self (heading self + 360)
    else if decide (heading self >= 360)
    then set_heading self (heading self - 360)
    else self in
  out2 ← outputs !! 2%nat;
  let self :=
    if decide (out2 < 1 / 6) then set_msg_sen_1 self 0
    else if decide (out2 < 3 / 6) then set_msg_sen_1 self (1 / 3)
    else if decide (out2 < 5 / 6) then set_msg_sen_1 self (2 / 3)
    else set_msg_sen_1 self 1 in
  out3 ← outputs !! 3%nat;
  let self :=
    if decide (out3 < 1 / 6) then set_msg_sen_2 self 0
    else if decide (out3 < 3 / 6) then set_msg_sen_2 self (1 / 3)
    else if decide (out3 < 5 / 6) then set_msg_sen_2 self (2 / 3)
    else set_msg_sen_2 self 1 in
  Some self.

(** [calculate_msg_to]: the position of the sender's radar that faces the
    aimed robot. *)
Definition calculate_msg_to (self aimed_robot : Agent) : option R :=
  let vect := geometry.mkPoint
                (geometry.x (location aimed_robot) - geometry.x (location self))
                (geometry.y (location aimed_robot) - geometry.y (location self)) in
  let angle := geometry.angle vect in
  let rel_angle := angle - heading self in
  let rel_angle :=
    if decide (rel_angle < 0) then rel_angle + 360
    else if decide (rel_angle > 360) then rel_angle - 360
    else rel_angle in
  radar_position !! find_radar_index rel_angle.

(** The first loop of [update_radar], [for radar in self.radar: radar = None]:
    each pass rebinds the loop variable and writes nothing to the agent. *)
Definition radar_init_loop (self : Agent) : Agent :=
  foldl (fun (self : Agent) (radar : option R) =>
           let radar : option R := None in self)
        self (radar self).

(** [update_radar] on the values read from receiver and sender.  Every
    read of [sender] is of a field that no earlier statement of the method
    writes, so the same function also describes a call whose sender is the
    receiver itself. *)
Definition update_radar (self sender : Agent) : option Agent :=
  let self := radar_init_loop self in
  let vect := geometry.mkPoint
                (geometry.x (location self) - geometry.x (location sender))
                (geometry.y (location self) - geometry.y (location sender)) in
  let angle := geometry.angle vect in
  let rel_angle := heading self - angle in
  msg ← calculate_msg_to sender self;
  slots ← list_store (radar self) (find_radar_index rel_angle) (Some msg);
  let self := set_radar self slots in
  if decide (mode sender = 0%Z) then
    Some (set_msg_rcv_2 (set_msg_rcv_1 self (msg_rcv_1 sender)) (msg_rcv_2 sender))
  else if decide (mode sender = 1%Z) then
    Some (set_msg_rcv_2 (set_msg_rcv_1 self (Some (msg_sen_1 sender))) (Some (msg_sen_2 sender)))
  else Some self.

(** [individual_fitness] for an average heading given in degrees. *)
Definition individual_fitness (self : Agent) (avg_heading : R) : R :=
  let tetaR := heading self in
  let abs_term :=
    Rabs (geometry.deg_to_rad tetaR - geometry.deg_to_rad avg_heading) in
  let min_term := py_min (2 * PI - abs_term) abs_term in
  let left_term := 1 - min_term / PI in
  let right_term := 1 - Rabs (angular_vel self) in
  left_term * right_term.

End agent.

(** ** consensus_environment *)

Module consensus_environment.
Import agent.

Record Environment := mkEnvironment {
  length : R;
  height : R;
  agent_list : list Agent
}.

Definition set_agent_list (env : Environment) (l : list Agent) : Environment :=
  mkEnvironment (length env) (height env) l.

(** [random.randint(a, b)] on the raw draw [raw]: an empty range raises. *)
Definition randint (raw : Z) (a b : Z) : option Z :=
  if decide (b < a)%Z then None else Some (a + raw mod (b - a + 1))%Z.

(** [l[i]] on a Python list, for an index that may be negative. *)
Definition py_index {A} (l : list A) (i : Z) : option A :=
  if decide (0 <= i)%Z then l !! Z.to_nat i
  else if decide (- Z.of_nat (List.length l) <= i)%Z
  then l !! Z.to_nat (Z.of_nat (List.length l) + i)
  else None.

(** The test of the inner loop of [communication]. *)
Definition in_range (robot other_robot : Agent) : Prop :=
  agent_id other_robot <> agent_id robot /\
  geometry.distance (location robot) (location other_robot) <= 80.

#[global] Instance in_range_dec robot other_robot
  : Decision (in_range robot other_robot) :=
  ltac:(unfold in_range; apply _).

Section simulation.

(** The pseudorandom source: [rng n] is the raw value of the n-th draw
    of the process; a counter of draws is threaded through the code. *)
Variable rng : nat -> Z.

(** The control network of the external library: a state (recurrent
    networks keep one) and [activate], which may raise. *)
Variable Net : Type.
Variable activate : Net -> list (option R) -> option (Net * list R).

(** One pass of the outer loop of [communication], for the robot stored
    at position [i]. *)
Definition communication_body (st : list Agent * nat) (i : nat)
    : option (list Agent * nat) :=
  let '(agents, draws) := st in
  robot ← agents !! i;
  let robots_in_range := filter (in_range robot) agents in
  random_id ← randint (rng draws) 0 (Z.of_nat (List.length robots_in_range) - 1);
  selected_robot ← py_index robots_in_range random_id;
  robot' ← update_radar robot selected_robot;
  Some (<[i := robot']> agents, S draws).

(** A [for] loop over positions whose body may raise. *)
Fixpoint for_each {S} (body : S -> nat -> option S) (idx : list nat)
    (st : S) : option S :=
  match idx with
  | [] => Some st
  | i :: idx => st ← body st i; for_each body idx st
  end.

Definition communication (env : Environment) (draws : nat)
    : option (Environment * nat) :=
  '(agents, draws) ← for_each communication_body
                       (seq 0 (List.length (agent_list env)))
                       (agent_list env, draws);
  Some (set_agent_list env agents, draws).

(** The scan of [consensus_verified] over the headings. *)
Definition min_max_scan (acc : R * R) (robot : Agent) : R * R :=
  let '(min_heading, max_heading) := acc in
  if decide (heading robot < min_heading) then (heading robot, max_heading)
  else if decide (heading robot > max_heading) then (min_heading, heading robot)
  else (min_heading, max_heading).

Definition consensus_verified (env : Environment) : option bool :=
  first ← agent_list env !! 0%nat;
  let '(min_heading, max_heading) :=
    foldl min_max_scan (heading first, heading first) (agent_list env) in
  Some (bool_decide (max_heading - min_heading < 5)).

Definition heading_vector (r : Agent) : geometry.Point :=
  geometry.mkPoint (cos (geometry.deg_to_rad (heading r)))
                   (sin (geometry.deg_to_rad (heading r))).

Definition avg_heading (env : Environment) : option R :=
  r0 ← agent_list env !! 0%nat;
  let sum_point :=
    foldl (fun sum_point r => geometry.sum_points sum_point (heading_vector r))
          (heading_vector r0) (drop 1 (agent_list env)) in
  Some (geometry.angle sum_point).

(** [fitness]; [1/R] raises for an empty population, after [avg_heading]
    already has. *)
Definition fitness (env : Environment) : option R :=
  let R := List.length (agent_list env) in
  avg_heading ← avg_heading env;
  let sum_r :=
    foldl (fun sum_r r => sum_r + individual_fitness r avg_heading)
          0 (agent_list env) in
  if decide (R = 0%nat) then None else Some ((1 / INR R) * sum_r).

(** The state a trial threads through its steps: the environment, the
    network, the number of random draws made so far and the optional
    recorder of headings. *)
Record Trial := mkTrial {
  env : Environment;
  net : Net;
  draws : nat;
  robot_orientation_list : option (list (list R))
}.

(** [robot_orientation_list[i].append(robot.heading)] when a recorder
    was passed. *)
Definition record_heading (rol : option (list (list R))) (i : nat) (h : R)
    : option (option (list (list R))) :=
  match rol with
  | None => Some None
  | Some rows =>
      row ← rows !! i;
      Some (Some (<[i := row ++ [h]]> rows))
  end.

(** One pass of the loop of [consensus_simulation_step]. *)
Definition step_body (st : list Agent * Net * option (list (list R)))
    (i : nat) : option (list Agent * Net * option (list (list R))) :=
  let '(agents, net, rol) := st in
  robot ← agents !! i;
  inputs ← create_net_inputs robot;
  '(net, output) ← activate net inputs;
  robot ← apply_outputs robot output;
  rol ← record_heading rol i (heading robot);
  Some (<[i := robot]> agents, net, rol).

Definition consensus_simulation_step (t : Trial) : option (Trial * bool) :=
  '(env, draws) ← communication (env t) (draws t);
  '(agents, net, rol) ← for_each step_body
                          (seq 0 (List.length (agent_list env)))
                          (agent_list env, net t, robot_orientation_list t);
  let env := set_agent_list env agents in
  verified ← consensus_verified env;
  Some (mkTrial env net draws rol, verified).

(** The loop of [consensus_simulation_evaluate]: [Some (t, true)] when a
    step returned true (the function returns from inside the loop),
    [Some (t, false)] when the range is exhausted. *)
Fixpoint evaluate_loop (time_steps : nat) (t : Trial)
    : option (Trial * bool) :=
  match time_steps with
  | O => Some (t, false)
  | S n =>
      '(t, verified) ← consensus_simulation_step t;
      if (verified : bool) then Some (t, true) else evaluate_loop n t
  end.

(** [consensus_simulation_evaluate]: the returned fitness, together with
    the state in which the call leaves the objects it was given. *)
Definition consensus_simulation_evaluate (t : Trial) (time_steps : nat)
    : option (Trial * R) :=
  '(t, reached) ← evaluate_loop time_steps t;
  if (reached : bool) then Some (t, 1.0)
  else
    fitness ← fitness (env t);
    let fitness := if decide (fitness <= 0.01) then 0.01 else fitness in
    Some (t, fitness).

End simulation.

Arguments mkTrial {Net} env net draws robot_orientation_list.
Arguments env {Net} t.
Arguments net {Net} t.
Arguments draws {Net} t.
Arguments robot_orientation_list {Net} t.
Arguments step_body {Net} activate st i.
Arguments consensus_simulation_step rng {Net} activate t.
Arguments evaluate_loop rng {Net} activate time_steps t.
Arguments consensus_simulation_evaluate rng {Net} activate t time_steps.

End consensus_environment.

(** * Vocabulary of the properties *)

Import geometry agent consensus_environment.

(** The bounds that appear in the sector table. *)
Definition sector_boundary (a : R) : Prop :=
  exists span, span ∈ radar_angle /\ (a = span.1 \/ a = span.2).

(** Sector [i] read as the half-open span [lo, hi) of the table, taken
    modulo a full turn (which only matters for sector 0, [345, 375)). *)
Definition in_sector (i : nat) (a : R) : Prop :=
  exists span, radar_angle !! i = Some span /\
    (span.1 <= a < span.2 \/ span.1 <= a + 360 < span.2).

(** The three [if] chains of [apply_outputs], named. *)
Definition clamp_angular_vel (v : R) : R :=
  if decide (v >= MAX_ANGULAR_VEL) then MAX_ANGULAR_VEL
  else if decide (v < - MAX_ANGULAR_VEL) then - MAX_ANGULAR_VEL
  else v.

Definition normalize_heading (h : R) : R :=
  if decide (h < 0) then h + 360
  else if decide (h >= 360) then h - 360
  else h.

Definition quantize (o : R) : R :=
  if decide (o < 1 / 6) then 0
  else if decide (o < 3 / 6) then 1 / 3
  else if decide (o < 5 / 6) then 2 / 3
  else 1.

(** The outgoing message on either channel, as a function of the output
    that feeds it. *)
Definition channel_1 (self : Agent) (o0 o1 o : R) (v : R) : option R :=
  msg_sen_1 <$> apply_outputs self [o0; o1; v; o].
Definition channel_2 (self : Agent) (o0 o1 o : R) (v : R) : option R :=
  msg_sen_2 <$> apply_outputs self [o0; o1; o; v].

(** Both channels send [levels] on [inputs], whatever the agent and the
    other outputs are. *)
Definition quantizes_to (inputs levels : list R) : Prop :=
  forall self o0 o1 o,
    map (channel_1 self o0 o1 o) inputs = map Some levels /\
    map (channel_2 self o0 o1 o) inputs = map Some levels.

(** The sector in which [update_radar] files the sender's message: the
    lookup is applied to the receiver's heading minus the bearing of the
    vector from sender to receiver. *)
Definition reception_sector (self sender : Agent) : nat :=
  find_radar_index
    (heading self -
     angle (mkPoint (x (location self) - x (location sender))
                    (y (location self) - y (location sender)))).

(** The message slots a receiver holds after hearing [sender]. *)
Definition received_1 (self sender : Agent) : option R :=
  if decide (mode sender = 0%Z) then msg_rcv_1 sender
  else if decide (mode sender = 1%Z) then Some (msg_sen_1 sender)
  else msg_rcv_1 self.
Definition received_2 (self sender : Agent) : option R :=
  if decide (mode sender = 0%Z) then msg_rcv_2 sender
  else if decide (mode sender = 1%Z) then Some (msg_sen_2 sender)
  else msg_rcv_2 self.

(** A call [store[self].update_radar(store[sender])] in a store of agent
    objects: the receiver's entry is the only one written. *)
Definition call_update_radar (store : list Agent) (self sender : nat)
    : option (list Agent) :=
  receiver ← store !! self;
  sender ← store !! sender;
  receiver' ← update_radar receiver sender;
  Some (<[self := receiver']> store).

(** The number of occupied slots of a radar register. *)
Definition occupied (slots : list (option R)) : nat :=
  List.length (filter is_Some slots).

(** The agents of the two-sender scenario: a receiver at the origin heading
    100 degrees, one sender to its west and one to its south. *)
Definition receiver_100 : Agent := init (mkPoint 0 0) 0 100 0 8 1 80.
Definition sender_west : Agent := init (mkPoint (-1) 0) 1 0 0 8 1 80.
Definition sender_south : Agent := init (mkPoint 0 (-1)) 2 0 0 8 1 80.

(** An agent is well formed when its register has the 8 slots the
    constructor gives it. *)
Definition well_formed (a : Agent) : Prop := List.length (radar a) = 8%nat.

(** Every agent has another agent within distance 80. *)
Definition all_have_neighbour (agents : list Agent) : Prop :=
  forall robot, robot ∈ agents ->
    exists other_robot, other_robot ∈ agents /\ in_range robot other_robot.

(** What a communication round is said to do, from position [i] on: each
    agent in turn hears one sender chosen among the other agents within
    distance 80, by a call of its [update_radar]. *)
Inductive comm_rounds : nat -> list Agent -> list Agent -> Prop :=
| comm_done i agents :
    i = List.length agents ->
    comm_rounds i agents agents
| comm_round i agents robot selected_robot robot' final :
    agents !! i = Some robot ->
    selected_robot ∈ agents ->
    agent_id selected_robot <> agent_id robot ->
    distance (location robot) (location selected_robot) <= 80 ->
    update_radar robot selected_robot = Some robot' ->
    comm_rounds (S i) (<[i := robot']> agents) final ->
    comm_rounds i agents final.

(** A network that asks for emission mode, no rotation and message 0. *)
Definition still_net (n : unit) (inputs : list (option R))
    : option (unit * list R) :=
  Some (n, [1; 0.5; 0; 0]).

(** Two agents one unit apart, with the given headings. *)
Definition pair_env (h0 h1 : R) : Environment :=
  mkEnvironment 100 100
    [init (mkPoint 0 0) 0 h0 0 8 1 80; init (mkPoint 1 0) 1 h1 0 8 1 80].

Definition pair_trial (h0 h1 : R) : Trial unit :=
  mkTrial (pair_env h0 h1) tt 0 None.

(** Some slot of the agent's register is occupied. *)
Definition has_signal (a : Agent) : Prop :=
  exists k m, radar a !! k = Some (Some m).

(** The agents are fit for a round, and their headings are [hs]. *)
Definition steady (hs : list R) (agents : list Agent) : Prop :=
  heading <$> agents = hs /\
  Forall well_formed agents /\
  all_have_neighbour agents /\
  Forall (fun a => 0 <= heading a < 360) agents.

Section trial_runs.

Variable rng : nat -> Z.
Variable Net : Type.
Variable activate : Net -> list (option R) -> option (Net * list R).

(** The state after [k] steps none of which reported consensus. *)
Fixpoint steps_without_consensus (k : nat) (t : Trial Net)
    : option (Trial Net) :=
  match k with
  | O => Some t
  | S k =>
      '(t, verified) ← consensus_simulation_step rng activate t;
      if (verified : bool) then None else steps_without_consensus k t
  end.

End trial_runs.

Arguments steps_without_consensus rng {Net} activate k t.

(** * The constructor of the environment and the experiment's evaluation *)

Module environment_init.
Import geometry agent consensus_environment.

Section construction.

(** [random.random()]: [random n] is the float in [0, 1) that the n-th draw
    of the process yields. *)
Variable random : nat -> R.

(** One pass of the loop of [Environment.__init__], for agent number [i]. *)
Definition init_body (length height : R) (st : list Agent * nat) (i : nat)
    : list Agent * nat :=
  let '(agent_list, draws) := st in
  let x := random draws * length in
  let y := random (S draws) * height in
  let location := mkPoint x y in
  let heading := random (S (S draws)) * 360 in
  let robot := init location (Z.of_nat i) heading 0 8.0 1 80 in
  (agent_list ++ [robot], S (S (S draws))).

(** [Environment.__init__(length, height, N)], from the state of the random
    source after [draws] draws. *)
Definition Environment_init (length height : R) (N : nat) (draws : nat)
    : Environment * nat :=
  let '(agent_list, draws) :=
    foldl (init_body length height) ([], draws) (seq 0 N) in
  (mkEnvironment length height agent_list, draws).

End construction.

End environment_init.

Module consensus_experiment.
Import geometry agent consensus_environment.

(** [numpy.array(a).mean()]; [None] stands for the nan that numpy returns
    (with a warning, not an exception) for an empty array. *)
Definition np_mean (a : list R) : option R :=
  match a with
  | [] => None
  | _ => Some (foldr Rplus 0 a / INR (List.length a))
  end.

Section evaluation.

Variable rng : nat -> Z.
Variable Net : Type.
Variable activate : Net -> list (option R) -> option (Net * list R).

(** The loop of [eval_fitness]: every epoch runs the driver, without a
    recorder, on the environment and network objects as the previous epoch
    left them. *)
Fixpoint epochs_loop (evaluate_epochs : nat) (maze_env : Environment)
    (control_net : Net) (draws : nat) (time_steps : nat)
    (epochs_fitness : list R)
    : option (Environment * Net * nat * list R) :=
  match evaluate_epochs with
  | O => Some (maze_env, control_net, draws, epochs_fitness)
  | S n =>
      '(t, fitness) ←
        consensus_simulation_evaluate rng activate
          (mkTrial maze_env control_net draws None) time_steps;
      epochs_loop n (env t) (net t) (consensus_environment.draws t)
                  time_steps (epochs_fitness ++ [fitness])
  end.

(** [eval_fitness]: [control_net] is the network the external library
    builds from the genome, [maze_env] the deep copy of the original
    environment; the count of random draws is returned with the fitness. *)
Definition eval_fitness (orig_consensus_environment : Environment)
    (control_net : Net) (draws : nat) (evaluate_epochs time_steps : nat)
    : option (option R * nat) :=
  let maze_env := orig_consensus_environment in
  '(_, _, draws, epochs_fitness) ←
    epochs_loop evaluate_epochs maze_env control_net draws time_steps [];
  let fitness := np_mean epochs_fitness in
  Some (fitness, draws).

End evaluation.

Arguments epochs_loop rng {Net} activate evaluate_epochs maze_env
  control_net draws time_steps epochs_fitness.
Arguments eval_fitness rng {Net} activate orig_consensus_environment
  control_net draws evaluate_epochs time_steps.

End consensus_experiment.

Import environment_init consensus_experiment.

(** What [update_radar] leaves alone. *)
Definition same_motion (a a' : Agent) : Prop :=
  agent_id a' = agent_id a /\ location a' = location a /\
  heading a' = heading a /\ angular_vel a' = angular_vel a /\
  radius a' = radius a /\ mode a' = mode a /\
  radar_range a' = radar_range a /\
  msg_sen_1 a' = msg_sen_1 a /\ msg_sen_2 a' = msg_sen_2 a.

(** [a'] is [a] after it has heard a sender. *)
Definition heard (a a' : Agent) : Prop :=
  same_motion a a' /\
  List.length (radar a') = List.length (radar a) /\
  has_signal a'.

(** [a'] is [a] after one step: it has heard a sender and applied the
    outputs of the network. *)
Definition stepped (a a' : Agent) : Prop :=
  agent_id a' = agent_id a /\ location a' = location a /\
  radius a' = radius a /\ radar_range a' = radar_range a /\
  List.length (radar a') = List.length (radar a) /\
  has_signal a' /\
  -3.0 <= angular_vel a' <= 3.0 /\
  (mode a' = 0%Z \/ mode a' = 1%Z) /\
  heading a' = normalize_heading (heading a + 10 * angular_vel a').

(** The network answers every input with at least four outputs. *)
Definition total_network {Net : Type}
    (activate : Net -> list (option R) -> option (Net * list R)) : Prop :=
  forall n inputs, exists n' outputs,
    activate n inputs = Some (n', outputs) /\ (4 <= List.length outputs)%nat.

(** A trial state from which no step can raise: at least one agent, all
    with their 8-slot register, a heading in [0, 360] and a neighbour in
    range, and a recorder, if any, with a row for every agent.  The range
    of the headings is closed: a step can leave a heading of 360.0. *)
Definition trial_ready {Net : Type} (t : Trial Net) : Prop :=
  agent_list (env t) <> [] /\
  Forall well_formed (agent_list (env t)) /\
  all_have_neighbour (agent_list (env t)) /\
  Forall (fun a => 0 <= heading a <= 360) (agent_list (env t)) /\
  match robot_orientation_list t with
  | None => True
  | Some rows => (List.length (agent_list (env t)) <= List.length rows)%nat
  end.

(** Where a communication round stands before the pass for position [j]:
    [j] draws made, the agents before [j] have heard a sender, the others
    are as they were in [agents0]. *)
Definition comm_progress (agents0 : list Agent) (draws0 : nat) (j : nat)
    (st : list Agent * nat) : Prop :=
  st.2 = (draws0 + j)%nat /\
  List.length st.1 = List.length agents0 /\
  forall k a0, agents0 !! k = Some a0 ->
    exists a, st.1 !! k = Some a /\
              ((k < j)%nat -> heard a0 a) /\ ((j <= k)%nat -> a = a0).

(** [a'] is [a] after [apply_outputs] on some outputs. *)
Definition acted (a a' : Agent) : Prop :=
  exists outputs, apply_outputs a outputs = Some a'.

(** The recorder before the pass for position [j] of a step: the rows
    before [j] have gained the heading of their agent, the others are as
    they were. *)
Definition rows_progress (rows0 : list (list R)) (j : nat)
    (agents : list Agent) (rows : list (list R)) : Prop :=
  List.length rows = List.length rows0 /\
  forall k,
    ((k < j)%nat ->
     exists row0 a, rows0 !! k = Some row0 /\ agents !! k = Some a /\
                    rows !! k = Some (row0 ++ [heading a])) /\
    ((j <= k)%nat -> rows !! k = rows0 !! k).

(** Where the loop of a step stands before the pass for position [j]: the
    agents before [j] have applied their outputs, the others are as they
    were in [agents1]. *)
Definition step_progress {Net : Type} (agents1 : list Agent)
    (rol0 : option (list (list R))) (j : nat)
    (st : list Agent * Net * option (list (list R))) : Prop :=
  List.length st.1.1 = List.length agents1 /\
  (forall k a1, agents1 !! k = Some a1 ->
     exists a, st.1.1 !! k = Some a /\
               ((k < j)%nat -> acted a1 a) /\ ((j <= k)%nat -> a = a1)) /\
  match rol0, st.2 with
  | None, None => True
  | Some rows0, Some rows => rows_progress rows0 j st.1.1 rows
  | _, _ => False
  end.

(** The pair of agents with an empty row each in the recorder. *)
Definition recorded_pair_trial (h0 h1 : R) : Trial unit :=
  mkTrial (pair_env h0 h1) tt 0 (Some [[]; []]).

(** The agent number [i] that [Environment.__init__] builds when the random
    source stood at [draws0] draws before the first agent. *)
Definition built_agent (random : nat -> R) (len hgt : R) (draws0 : nat)
    (i : nat) : Agent :=
  init (mkPoint (random (draws0 + 3 * i)%nat * len)
                (random (S (draws0 + 3 * i)) * hgt))
       (Z.of_nat i) (random (S (S (draws0 + 3 * i))) * 360) 0 8.0 1 80.

(** A random source that places the first agent in one corner of the field
    and the others near the opposite one. *)
Definition corner_source (n : nat) : R :=
  if decide (n < 3)%nat then 0 else 0.9.

(** What no part of a trial changes in an agent. *)
Definition same_body (a a' : Agent) : Prop :=
  agent_id a' = agent_id a /\ location a' = location a /\
  radius a' = radius a /\ radar_range a' = radar_range a /\
  List.length (radar a') = List.length (radar a).

(** What a step is certain to leave of an agent: its body, a signal in its
    register, an angular velocity and a mode in range, and a heading in
    [0, 360] if it had one. *)
Definition step_outcome (a a' : Agent) : Prop :=
  same_body a a' /\ has_signal a' /\
  -3.0 <= angular_vel a' <= 3.0 /\
  (mode a' = 0%Z \/ mode a' = 1%Z) /\
  (0 <= heading a <= 360 -> 0 <= heading a' <= 360).

(** * Rounding

    The two places of the code where the rounding of one operation decides
    the outcome: the wrap of the heading in [apply_outputs] and the
    subtraction in [consensus_verified].  Both are embedded over the
    binary64 floats of the kernel, which compute what Python computes, and
    over the reals with the rounding as a parameter. *)

Module binary64.

(** The attributes that [apply_outputs] and [consensus_verified] read or
    write. *)
Record Agent := mkAgent {
  mode : Z;
  angular_vel : float;
  heading : float;
  msg_sen_1 : float;
  msg_sen_2 : float
}.

Definition MAX_ANGULAR_VEL : float := 3.0%float.

Definition set_mode (a : Agent) (v : Z) : Agent :=
  mkAgent v (angular_vel a) (heading a) (msg_sen_1 a) (msg_sen_2 a).
Definition set_angular_vel (a : Agent) (v : float) : Agent :=
  mkAgent (mode a) v (heading a) (msg_sen_1 a) (msg_sen_2 a).
Definition set_heading (a : Agent) (v : float) : Agent :=
  mkAgent (mode a) (angular_vel a) v (msg_sen_1 a) (msg_sen_2 a).
Definition set_msg_sen_1 (a : Agent) (v : float) : Agent :=
  mkAgent (mode a) (angular_vel a) (heading a) v (msg_sen_2 a).
Definition set_msg_sen_2 (a : Agent) (v : float) : Agent :=
  mkAgent (mode a) (angular_vel a) (heading a) (msg_sen_1 a) v.

(** [apply_outputs], statement by statement; [a >= b] is [b <= a]. *)
Definition apply_outputs (self : Agent) (outputs : list float) : option Agent :=
  out0 ← outputs !! 0%nat;
  let self := if (out0 <? 0.5)%float then set_mode self 0
              else set_mode self 1 in
  out1 ← outputs !! 1%nat;
  let new_ang_vel := (out1 - 0.5)%float in
  let self :=
    if (MAX_ANGULAR_VEL <=? new_ang_vel)%float
    then set_angular_vel self MAX_ANGULAR_VEL
    else if (new_ang_vel <? - MAX_ANGULAR_VEL)%float
    then set_angular_vel self (- MAX_ANGULAR_VEL)%float
    else set_angular_vel self new_ang_vel in
  let self :=
    set_heading self (heading self + 10 * angular_vel self)%float in
  let self :=
    if (heading self <? 0)%float
    then set_heading self (heading self + 360)%float
    else if (360 <=? heading self)%float
    then set_heading self (heading self - 360)%float
    else self in
  out2 ← outputs !! 2%nat;
  let self :=
    if (out2 <? 1 / 6)%float then set_msg_sen_1 self 0%float
    else if (out2 <? 3 / 6)%float then set_msg_sen_1 self (1 / 3)%float
    else if (out2 <? 5 / 6)%float then set_msg_sen_1 self (2 / 3)%float
    else set_msg_sen_1 self 1%float in
  out3 ← outputs !! 3%nat;
  let self :=
    if (out3 <? 1 / 6)%float then set_msg_sen_2 self 0%float
    else if (out3 <? 3 / 6)%float then set_msg_sen_2 self (1 / 3)%float
    else if (out3 <? 5 / 6)%float then set_msg_sen_2 self (2 / 3)%float
    else set_msg_sen_2 self 1%float in
  Some self.

(** The scan of [consensus_verified]. *)
Definition min_max_scan (acc : float * float) (robot : Agent)
    : float * float :=
  let '(min_heading, max_heading) := acc in
  if (heading robot <? min_heading)%float then (heading robot, max_heading)
  else if (max_heading <? heading robot)%float
  then (min_heading, heading robot)
  else (min_heading, max_heading).

(** [consensus_verified] on the environment's [agent_list]. *)
Definition consensus_verified (agent_list : list Agent) : option bool :=
  first ← agent_list !! 0%nat;
  let '(min_heading, max_heading) :=
    foldl min_max_scan (heading first, heading first) agent_list in
  Some (max_heading - min_heading <? 5)%float.

(** The rational number that a finite float stands for. *)
Definition exact (f : float) : option Q :=
  match FloatOps.Prim2SF f with
  | SpecFloat.S754_zero _ => Some (Qmake 0 1)
  | SpecFloat.S754_finite s m e =>
      let v := if s then Z.neg m else Z.pos m in
      Some (Qred (if (0 <=? e)%Z then Qmake (v * 2 ^ e) 1
                  else Qmake v (Z.to_pos (2 ^ (- e)))))
  | _ => None
  end.

(** Whether every difference between the headings of two agents, taken
    without rounding, is below [bound]. *)
Definition differences_below (bound : Q) (agent_list : list Agent)
    : option bool :=
  hs ← mapM (fun r => exact (heading r)) agent_list;
  Some (forallb (fun h1 =>
          forallb (fun h2 => negb (Qle_bool bound (Qminus h1 h2))) hs) hs).

(** An agent heading 0 that has not moved yet. *)
Definition heading_0 : Agent := mkAgent 1 0 0 0 0.

(** The output just below one half: 0.5 - 2^-54. *)
Definition below_half : float := 0x1.fffffffffffffp-2%float.

(** Two agents heading 2^-51 and 5 degrees. *)
Definition near_0_and_5 : list Agent :=
  [mkAgent 1 0 0x1p-51 0 0; mkAgent 1 0 5 0 0].

(** The float that Python reads from the literal [14.9]. *)
Definition float_14_9 : float := 0x1.dcccccccccccdp+3%float.

(** Two agents heading 10 and [h] degrees. *)
Definition heading_10_and (h : float) : list Agent :=
  [mkAgent 1 0 10 0 0; mkAgent 1 0 h 0 0].

End binary64.

Section rounded.

(** [rnd x] is the float nearest to the real number [x]. *)
Variable rnd : R -> R.

(** The statements of [apply_outputs] that set the angular velocity and
    the heading, from the heading the agent has and [outputs[1]]. *)
Definition apply_outputs_turn (heading out1 : R) : R * R :=
  let new_ang_vel := rnd (out1 - 0.5) in
  let angular_vel :=
    if decide (new_ang_vel >= MAX_ANGULAR_VEL) then MAX_ANGULAR_VEL
    else if decide (new_ang_vel < - MAX_ANGULAR_VEL) then - MAX_ANGULAR_VEL
    else new_ang_vel in
  let heading := rnd (heading + rnd (10 * angular_vel)) in
  let heading :=
    if decide (heading < 0) then rnd (heading + 360)
    else if decide (heading >= 360) then rnd (heading - 360)
    else heading in
  (angular_vel, heading).

(** [consensus_verified] with its one arithmetic operation rounded. *)
Definition consensus_verified_rounded (env : Environment) : option bool :=
  first ← agent_list env !! 0%nat;
  let '(min_heading, max_heading) :=
    foldl min_max_scan (heading first, heading first) (agent_list env) in
  Some (bool_decide (rnd (max_heading - min_heading) < 5)).

End rounded.

(** What is known of the rounding to the nearest float: it keeps the order,
    and the integers up to 2^53 are floats. *)
Definition rounding (rnd : R -> R) : Prop :=
  (forall x y, x <= y -> rnd x <= rnd y) /\
  (forall k : Z, (Z.abs k <= 2 ^ 53)%Z -> rnd (IZR k) = IZR k).

(** * Properties *)

(** Closes a goal about concrete or bounded reals after all decisions in it
    have been split. *)
Ltac split_decisions :=
  repeat (case_decide; try lra); try reflexivity.

(** ** Sector lookup *)

Lemma sector_boundary_cases a :
  sector_boundary a <->
  a = 345 \/ a = 375 \/ a = 15 \/ a = 45 \/ a = 90 \/ a = 150 \/ a = 210 \/
  a = 270 \/ a = 315.
Proof.
  unfold sector_boundary, radar_angle. split.
  - intros [span [Hin Ha]].
    repeat (apply elem_of_cons in Hin as [-> | Hin]; [simpl in Ha; lra |]).
    inversion Hin.
  - intros H.
    assert (Hspan : forall lo hi : R,
               (lo, hi) ∈ radar_angle -> a = lo \/ a = hi ->
               exists span, span ∈ radar_angle /\ (a = span.1 \/ a = span.2))
      by (intros lo hi Hin Ha; exists (lo, hi); auto).
    unfold radar_angle in Hspan.
    repeat match goal with
    | H : _ \/ _ |- _ => destruct H as [H | H]
    end;
      [ apply (Hspan 345.0 375.0) | apply (Hspan 345.0 375.0)
      | apply (Hspan 15.0 45.0) | apply (Hspan 15.0 45.0)
      | apply (Hspan 45.0 90.0) | apply (Hspan 90.0 150.0)
      | apply (Hspan 150.0 210.0) | apply (Hspan 210.0 270.0)
      | apply (Hspan 270.0 315.0) ];
      try (repeat constructor); lra.
Qed.

Lemma in_sector_cases i a :
  in_sector i a <->
  match i with
  | 0%nat => 345 <= a < 375 \/ 345 <= a + 360 < 375
  | 1%nat => 15 <= a < 45 \/ 15 <= a + 360 < 45
  | 2%nat => 45 <= a < 90 \/ 45 <= a + 360 < 90
  | 3%nat => 90 <= a < 150 \/ 90 <= a + 360 < 150
  | 4%nat => 150 <= a < 210 \/ 150 <= a + 360 < 210
  | 5%nat => 210 <= a < 270 \/ 210 <= a + 360 < 270
  | 6%nat => 270 <= a < 315 \/ 270 <= a + 360 < 315
  | 7%nat => 315 <= a < 345 \/ 315 <= a + 360 < 345
  | _ => False
  end.
Proof.
  unfold in_sector, radar_angle.
  do 8 (destruct i as [| i];
        [ simpl; split;
          [ intros [span [[= <-] H]]; simpl in H; lra
          | intros H; eexists; split; [reflexivity | simpl; lra] ] | ]).
  simpl. split; [intros [span [[=] _]] | tauto].
Qed.

(** The scan never answers with a position outside the table. *)
Lemma find_radar_index_from_bound spans a i :
  (find_radar_index_from i spans a = 0 \/
   i <= find_radar_index_from i spans a < i + List.length spans)%nat.
Proof.
  revert i. induction spans as [| span rest IH]; intros i; simpl.
  - now left.
  - case_decide.
    + right. lia.
    + destruct (IH (S i)) as [-> | Hr]; [now left | right; lia].
Qed.

Lemma find_radar_index_lt a : (find_radar_index a < 8)%nat.
Proof.
  unfold find_radar_index.
  destruct (find_radar_index_from_bound radar_angle a 0) as [-> | H].
  - lia.
  - change (List.length radar_angle) with 8%nat in H. lia.
Qed.

(** The scan over the literal table, written out. *)
Lemma find_radar_index_unfold a :
  find_radar_index a =
    if decide (a > 345.0 /\ a < 375.0) then 0%nat
    else if decide (a > 15.0 /\ a < 45.0) then 1%nat
    else if decide (a > 45.0 /\ a < 90.0) then 2%nat
    else if decide (a > 90.0 /\ a < 150.0) then 3%nat
    else if decide (a > 150.0 /\ a < 210.0) then 4%nat
    else if decide (a > 210.0 /\ a < 270.0) then 5%nat
    else if decide (a > 270.0 /\ a < 315.0) then 6%nat
    else if decide (a > 315.0 /\ a < 345.0) then 7%nat
    else 0%nat.
Proof. reflexivity. Qed.

(** C8. For every relative bearing in [0, 360) the lookup returns one index
    among 0..7.  At a bound of the table it returns 0 (the fallback);
    anywhere else the returned sector contains the bearing, sector 0 being
    read as wrapping around 0, and no other sector does. *)
Theorem find_radar_index_partition (a : R) :
  0 <= a < 360 ->
  (find_radar_index a < 8)%nat /\
  (sector_boundary a -> find_radar_index a = 0%nat) /\
  (~ sector_boundary a ->
     in_sector (find_radar_index a) a /\
     forall j, in_sector j a -> j = find_radar_index a).
Proof.
  intros Ha. split; [apply find_radar_index_lt |].
  rewrite sector_boundary_cases, find_radar_index_unfold.
  repeat case_decide;
    (split; [intros Hb; first [reflexivity | exfalso; lra] |]);
    (intros Hnb; split;
     [ apply in_sector_cases; lra
     | intros j Hj; apply in_sector_cases in Hj;
       do 8 (destruct j as [| j]; [first [reflexivity | exfalso; lra] |]);
       contradiction ]).
Qed.

Lemma find_radar_index_partition_witness :
  (find_radar_index 100 < 8)%nat /\
  (sector_boundary 100 -> find_radar_index 100 = 0%nat) /\
  (~ sector_boundary 100 ->
     in_sector (find_radar_index 100) 100 /\
     forall j, in_sector j 100 -> j = find_radar_index 100).
Proof. apply (find_radar_index_partition 100). lra. Defined.

(** A bearing of exactly 15 degrees is answered by the fallback. *)
Example find_radar_index_15 : find_radar_index 15.0 = 0%nat.
Proof. rewrite find_radar_index_unfold. split_decisions. Qed.

Example find_radar_index_100 : find_radar_index 100 = 3%nat.
Proof. rewrite find_radar_index_unfold. split_decisions. Qed.

(** ** Control outputs *)

(** On a vector of four outputs [apply_outputs] returns, and this is the
    agent it leaves. *)
Lemma apply_outputs_eq self o0 o1 o2 o3 :
  apply_outputs self [o0; o1; o2; o3] =
  Some (mkAgent (agent_id self)
          (normalize_heading
             (heading self + 10 * clamp_angular_vel (o1 - 0.5)))
          (clamp_angular_vel (o1 - 0.5))
          (radius self) (location self)
          (if decide (o0 < 0.5) then 0%Z else 1%Z)
          (radar_range self) (msg_rcv_1 self) (msg_rcv_2 self)
          (quantize o2) (quantize o3) (radar self)).
Proof.
  unfold apply_outputs, clamp_angular_vel, normalize_heading, quantize.
  cbn.
  destruct (decide (o0 < 0.5));
    (destruct (decide (o1 - 0.5 >= MAX_ANGULAR_VEL));
     [| destruct (decide (o1 - 0.5 < - MAX_ANGULAR_VEL))]);
    cbn; repeat (case_decide; cbn); reflexivity.
Qed.

Lemma channel_1_eq self o0 o1 o v :
  channel_1 self o0 o1 o v = Some (quantize v).
Proof. unfold channel_1. now rewrite apply_outputs_eq. Qed.

Lemma channel_2_eq self o0 o1 o v :
  channel_2 self o0 o1 o v = Some (quantize v).
Proof. unfold channel_2. now rewrite apply_outputs_eq. Qed.

(** C2, as the code has it. On outputs 0.0, 0.2, 0.5, 0.7, 0.9, 1.0 each
    channel sends 0, 1/3, 2/3, 2/3, 1, 1: the bins are [0,1/6), [1/6,3/6),
    [3/6,5/6) and [5/6,1], so 0.2 falls in the second and 0.5 in the
    third. *)
Theorem apply_outputs_quantization :
  quantizes_to [0.0; 0.2; 0.5; 0.7; 0.9; 1.0] [0; 1 / 3; 2 / 3; 2 / 3; 1; 1].
Proof.
  intros self o0 o1 o. cbn [map].
  rewrite !channel_1_eq, !channel_2_eq. unfold quantize.
  split; split_decisions.
Qed.

(** C2, as stated: the levels 0, 0, 1/3, 2/3, 1, 1 are not what the
    channels send; already 0.2 is sent as 1/3. *)
Lemma apply_outputs_quantization_as_stated_fails :
  ~ quantizes_to [0.0; 0.2; 0.5; 0.7; 0.9; 1.0] [0; 0; 1 / 3; 2 / 3; 1; 1].
Proof.
  intros H.
  destruct (H (init (mkPoint 0 0) 0 0 0 8 1 80) 0 0 0) as [H1 _].
  cbn [map] in H1. rewrite !channel_1_eq in H1.
  injection H1 as _ H02 _. revert H02. unfold quantize. split_decisions.
Qed.

(** In exact arithmetic the rounded statements are the statements of
    [apply_outputs]. *)
Lemma apply_outputs_turn_exact self o0 o1 o2 o3 :
  exists self',
    apply_outputs self [o0; o1; o2; o3] = Some self' /\
    (angular_vel self', heading self') =
      apply_outputs_turn (fun x => x) (heading self) o1.
Proof.
  eexists. split; [apply apply_outputs_eq |].
  unfold apply_outputs_turn, clamp_angular_vel, normalize_heading. cbn.
  repeat case_decide; try reflexivity; lra.
Qed.

Lemma rounding_id : rounding (fun x => x).
Proof. split; [intros x y Hxy; exact Hxy | reflexivity]. Qed.

(** A rounding leaves the integers of the proofs below alone. *)
Lemma rounding_IZR rnd (k : Z) :
  rounding rnd -> (Z.abs k <= 400)%Z -> rnd (IZR k) = IZR k.
Proof. intros [_ Hint] Hk. apply Hint. lia. Qed.

(** Whatever the rounding, [apply_outputs] leaves an angular velocity in
    [-3, 3] and takes a heading of the closed range [0, 360] to a heading of
    that range.  The upper bound is closed: the sum of a negative heading
    and 360 is below 360, and rounding may bring it up to 360. *)
Lemma apply_outputs_turn_range rnd heading out1 :
  rounding rnd -> 0 <= heading <= 360 ->
  -3.0 <= (apply_outputs_turn rnd heading out1).1 <= 3.0 /\
  0 <= (apply_outputs_turn rnd heading out1).2 <= 360.
Proof.
  intros Hrnd Hh. pose proof Hrnd as [Hmono _].
  pose proof (rounding_IZR rnd (-30) Hrnd ltac:(lia)) as Hm30.
  pose proof (rounding_IZR rnd 30 Hrnd ltac:(lia)) as H30.
  pose proof (rounding_IZR rnd 0 Hrnd ltac:(lia)) as H0.
  pose proof (rounding_IZR rnd 330 Hrnd ltac:(lia)) as H330.
  pose proof (rounding_IZR rnd 360 Hrnd ltac:(lia)) as H360.
  pose proof (rounding_IZR rnd 390 Hrnd ltac:(lia)) as H390.
  unfold apply_outputs_turn. cbn [fst snd].
  set (v := if decide (rnd (out1 - 0.5) >= MAX_ANGULAR_VEL)
            then MAX_ANGULAR_VEL
            else if decide (rnd (out1 - 0.5) < - MAX_ANGULAR_VEL)
                 then - MAX_ANGULAR_VEL else rnd (out1 - 0.5)).
  assert (Hv : -3.0 <= v <= 3.0)
    by (unfold v, MAX_ANGULAR_VEL; split_decisions).
  split; [exact Hv |].
  assert (Hstep : -30 <= rnd (10 * v) <= 30).
  { split.
    - rewrite <- Hm30. apply Hmono. lra.
    - rewrite <- H30. apply Hmono. lra. }
  set (s := rnd (10 * v)) in *.
  assert (Hsum : -30 <= rnd (heading + s) <= 390).
  { split.
    - rewrite <- Hm30. apply Hmono. lra.
    - rewrite <- H390. apply Hmono. lra. }
  set (h1 := rnd (heading + s)) in *.
  destruct (decide (h1 < 0)) as [Hneg | Hpos].
  - split.
    + apply Rle_trans with 330; [lra |].
      rewrite <- H330. apply Hmono. lra.
    + rewrite <- H360 at 2. apply Hmono. lra.
  - destruct (decide (h1 >= 360)) as [Hbig | Hsmall]; [| lra].
    split.
    + rewrite <- H0 at 1. apply Hmono. lra.
    + apply Rle_trans with 30; [| lra].
      rewrite <- H30. apply Hmono. lra.
Qed.

(** C4. The heading does leave [0, 360).  The agent heads 0.0 and
    [outputs[1]] is the float just below one half, 0.5 - 2^-54.  The new
    angular velocity is -2^-54, the heading becomes negative, and the
    addition of 360 rounds to 360.0: the test [heading >= 360], which would
    have brought it down to 0.0, is the [elif] of the branch taken. *)
Theorem apply_outputs_heading_reaches_360 :
  exists self',
    binary64.apply_outputs binary64.heading_0
      [1; binary64.below_half; 0; 0]%float = Some self' /\
    binary64.exact (binary64.heading binary64.heading_0) = Some (Qmake 0 1) /\
    binary64.exact binary64.below_half =
      Some (Qmake 9007199254740991 18014398509481984) /\
    binary64.exact (binary64.angular_vel self') =
      Some (Qmake (-1) 18014398509481984) /\
    binary64.exact (binary64.heading self') = Some (Qmake 360 1) /\
    (binary64.heading self' <? 360)%float = false.
Proof.
  eexists. split; [vm_compute; reflexivity |].
  vm_compute. repeat split.
Qed.

(** ** Individual fitness *)

Lemma py_min_Rmin a b : py_min a b = Rmin a b.
Proof.
  unfold py_min, Rmin. case_decide; destruct (Rle_dec a b); lra.
Qed.

Lemma deg_to_rad_range d :
  0 <= d < 360 -> 0 <= deg_to_rad d < 2 * PI.
Proof.
  intros Hd. unfold deg_to_rad. pose proof PI_RGT_0 as Hpi.
  split; nra.
Qed.

(** C7. For a heading and an average heading in [0, 360) and an angular
    velocity in [-3, 3], the individual fitness is
    (1 - min(2 pi - |h - a|, |h - a|) / pi) * (1 - |angular_vel|), with h and
    a the two headings in radians, and it lies in [-2, 1]. *)
Theorem individual_fitness_formula_bounds self avg_heading :
  0 <= heading self < 360 ->
  -3.0 <= angular_vel self <= 3.0 ->
  0 <= avg_heading < 360 ->
  let h := deg_to_rad (heading self) in
  let a := deg_to_rad avg_heading in
  individual_fitness self avg_heading =
    (1 - Rmin (2 * PI - Rabs (h - a)) (Rabs (h - a)) / PI) *
    (1 - Rabs (angular_vel self)) /\
  -2 <= individual_fitness self avg_heading <= 1.
Proof.
  intros Hh Hv Ha h a.
  assert (Heq : individual_fitness self avg_heading =
                (1 - Rmin (2 * PI - Rabs (h - a)) (Rabs (h - a)) / PI) *
                (1 - Rabs (angular_vel self)))
    by (unfold individual_fitness; now rewrite py_min_Rmin).
  split; [exact Heq |]. rewrite Heq.
  pose proof PI_RGT_0 as Hpi.
  pose proof (deg_to_rad_range _ Hh) as Hh'. fold h in Hh'.
  pose proof (deg_to_rad_range _ Ha) as Ha'. fold a in Ha'.
  set (t := Rabs (h - a)).
  assert (Ht : 0 <= t < 2 * PI)
    by (unfold t, Rabs; destruct (Rcase_abs _); lra).
  set (m := Rmin (2 * PI - t) t).
  assert (Hm : 0 <= m <= PI)
    by (unfold m, Rmin; destruct (Rle_dec _ _); lra).
  set (l := 1 - m / PI).
  assert (Hl : 0 <= l <= 1).
  { unfold l. assert (0 <= m / PI <= 1); [| lra].
    split.
    - apply Rmult_le_pos; [lra | left; now apply Rinv_0_lt_compat].
    - apply (Rmult_le_reg_r PI); [lra |]. field_simplify; lra. }
  set (r := 1 - Rabs (angular_vel self)).
  assert (Hr : -2 <= r <= 1)
    by (unfold r, Rabs; destruct (Rcase_abs _); lra).
  nra.
Qed.

Lemma individual_fitness_formula_bounds_witness :
  let self := init (mkPoint 0 0) 0 90 2 8 1 80 in
  let h := deg_to_rad (heading self) in
  let a := deg_to_rad 30 in
  individual_fitness self 30 =
    (1 - Rmin (2 * PI - Rabs (h - a)) (Rabs (h - a)) / PI) *
    (1 - Rabs (angular_vel self)) /\
  -2 <= individual_fitness self 30 <= 1.
Proof.
  apply (individual_fitness_formula_bounds
           (init (mkPoint 0 0) 0 90 2 8 1 80) 30); simpl; lra.
Defined.

(** ** Consensus detection *)

(** One pass of the scan widens the pair of bounds just enough to take the
    robot's heading in. *)
Lemma min_max_scan_step lo hi r :
  lo <= hi ->
  let '(lo', hi') := min_max_scan (lo, hi) r in
  lo' <= hi' /\ lo' <= lo /\ hi <= hi' /\ lo' <= heading r <= hi' /\
  (lo' = lo \/ lo' = heading r) /\ (hi' = hi \/ hi' = heading r).
Proof.
  intros Hle. unfold min_max_scan.
  repeat case_decide; split_and!; auto; lra.
Qed.

(** The scan ends with the least and the greatest of the start values and
    the headings it has seen. *)
Lemma min_max_scan_spec l lo hi :
  lo <= hi ->
  let '(lo', hi') := foldl min_max_scan (lo, hi) l in
  lo' <= hi' /\ lo' <= lo /\ hi <= hi' /\
  (forall r, r ∈ l -> lo' <= heading r <= hi') /\
  (lo' = lo \/ exists r, r ∈ l /\ heading r = lo') /\
  (hi' = hi \/ exists r, r ∈ l /\ heading r = hi').
Proof.
  revert lo hi. induction l as [| a l IH]; intros lo hi Hle; cbn [foldl].
  - split_and!; try lra; auto. intros r Hr. inversion Hr.
  - pose proof (min_max_scan_step lo hi a Hle) as Hs.
    destruct (min_max_scan (lo, hi) a) as [lo1 hi1].
    destruct Hs as (S1 & S2 & S3 & S4 & S5 & S6).
    specialize (IH lo1 hi1 S1).
    destruct (foldl min_max_scan (lo1, hi1) l) as [lo' hi'].
    destruct IH as (H1 & H2 & H3 & H4 & H5 & H6).
    cbn beta iota. split_and!; try lra.
    + intros r' [-> | Hr']%elem_of_cons; [lra | apply H4 in Hr'; lra].
    + destruct H5 as [-> | (r' & Hin & Heq)].
      * destruct S5 as [-> | ->]; [now left |].
        right. exists a. split; [left | reflexivity].
      * right. exists r'. split; [now right | exact Heq].
    + destruct H6 as [-> | (r' & Hin & Heq)].
      * destruct S6 as [-> | ->]; [now left |].
        right. exists a. split; [left | reflexivity].
      * right. exists r'. split; [now right | exact Heq].
Qed.

(** C6, as stated: the two agents head 2^-51 and 5 degrees, so that every
    difference between two headings is below 5, and [consensus_verified]
    returns false: 5 - 2^-51 is no float, and the subtraction rounds it
    to 5. *)
Lemma consensus_verified_max_difference_as_stated_fails :
  binary64.consensus_verified binary64.near_0_and_5 = Some false /\
  binary64.differences_below (Qmake 5 1) binary64.near_0_and_5 = Some true.
Proof. vm_compute. split; reflexivity. Qed.

(** C6, as the code has it.  With at least one agent, [consensus_verified]
    returns, and it returns true exactly when the greatest heading minus the
    least, rounded as the subtraction rounds it, is below 5; every
    difference between two agents' raw headings is then below 5.  On the
    floats of the headings 10 and 14.9 it returns true, on those of 10 and
    15.0 false. *)
Theorem consensus_verified_rounded_difference :
  (forall rnd env,
     rounding rnd -> agent_list env <> [] ->
     exists b lo hi,
       consensus_verified_rounded rnd env = Some b /\
       lo ∈ agent_list env /\ hi ∈ agent_list env /\
       (forall r, r ∈ agent_list env ->
                  heading lo <= heading r <= heading hi) /\
       (b = true <-> rnd (heading hi - heading lo) < 5) /\
       (b = true ->
        forall r1 r2, r1 ∈ agent_list env -> r2 ∈ agent_list env ->
                      heading r1 - heading r2 < 5)) /\
  binary64.consensus_verified (binary64.heading_10_and binary64.float_14_9) =
    Some true /\
  binary64.consensus_verified (binary64.heading_10_and 15.0%float) =
    Some false.
Proof.
  split; [| split; vm_compute; reflexivity].
  intros rnd env Hrnd Hne. unfold consensus_verified_rounded.
  destruct (agent_list env) as [| r0 l] eqn:El; [congruence | clear Hne].
  cbn [lookup list_lookup mbind option_bind].
  pose proof (min_max_scan_spec (r0 :: l) (heading r0) (heading r0)
                ltac:(lra)) as Hs.
  destruct (foldl min_max_scan (heading r0, heading r0) (r0 :: l))
    as [lo hi].
  destruct Hs as (H1 & H2 & H3 & H4 & H5 & H6).
  assert (exists r, r ∈ r0 :: l /\ heading r = lo) as (rlo & Hlo & <-)
    by (destruct H5 as [-> | ?];
        [exists r0; split; [left | reflexivity] | assumption]).
  assert (exists r, r ∈ r0 :: l /\ heading r = hi) as (rhi & Hhi & <-)
    by (destruct H6 as [-> | ?];
        [exists r0; split; [left | reflexivity] | assumption]).
  exists (bool_decide (rnd (heading rhi - heading rlo) < 5)), rlo, rhi.
  rewrite bool_decide_eq_true.
  split_and!; [reflexivity | exact Hlo | exact Hhi | exact H4 | reflexivity |].
  intros Hd r1 r2 Hr1 Hr2.
  apply H4 in Hr1. apply H4 in Hr2.
  destruct (Rlt_dec (heading rhi - heading rlo) 5) as [Hlt | Hge]; [lra |].
  destruct Hrnd as [Hmono Hint].
  pose proof (Hmono 5 (heading rhi - heading rlo) ltac:(lra)) as Hle.
  rewrite (Hint 5%Z ltac:(lia)) in Hle. lra.
Qed.

Lemma consensus_verified_rounded_difference_witness :
  exists b lo hi,
    consensus_verified_rounded (fun x => x) (pair_env 10 14.9) = Some b /\
    lo ∈ agent_list (pair_env 10 14.9) /\
    hi ∈ agent_list (pair_env 10 14.9) /\
    (forall r, r ∈ agent_list (pair_env 10 14.9) ->
               heading lo <= heading r <= heading hi) /\
    (b = true <-> heading hi - heading lo < 5) /\
    (b = true ->
     forall r1 r2,
       r1 ∈ agent_list (pair_env 10 14.9) ->
       r2 ∈ agent_list (pair_env 10 14.9) ->
       heading r1 - heading r2 < 5).
Proof.
  apply (proj1 consensus_verified_rounded_difference
           (fun x => x) (pair_env 10 14.9)).
  - split; [intros x y Hxy; exact Hxy | reflexivity].
  - simpl. discriminate.
Defined.

(** ** Radar update *)

(** The polar angle at the two vectors the examples below use. *)
Lemma angle_east : angle (mkPoint 1 0) = 0.
Proof.
  unfold angle, atan2. cbn [x y].
  replace (0 / 1) with 0 by lra.
  pose proof PI_RGT_0. split_decisions; rewrite atan_0 in *; lra.
Qed.

Lemma angle_north : angle (mkPoint 0 1) = 90.
Proof.
  unfold angle, atan2. cbn [x y].
  pose proof PI_RGT_0 as Hpi.
  assert (Hq : PI / 2 / PI * 180 = 90) by (field; lra).
  split_decisions.
Qed.

(** The polar angle is normalized as the spec of the geometry utility
    says. *)
Lemma angle_range p : 0 <= angle p < 360.
Proof.
  pose proof PI_RGT_0 as Hpi.
  pose proof (atan_bound (y p / x p)) as Hb.
  assert (Hs : forall t, - PI < t <= PI ->
                 -180 < t / PI * 180 <= 180).
  { intros t Ht. replace (t / PI * 180) with (t * (180 / PI)) by (field; lra).
    assert (Hk : 0 < 180 / PI) by (apply Rdiv_lt_0_compat; lra).
    assert (Hpk : PI * (180 / PI) = 180) by (field; lra).
    split; nra. }
  assert (Hneg : x p < 0 -> 0 <= y p -> atan (y p / x p) <= 0).
  { intros Hx Hy. rewrite <- atan_0.
    assert (Hq : y p / x p <= 0).
    { unfold Rdiv. assert (/ x p < 0) by now apply Rinv_lt_0_compat. nra. }
    destruct Hq as [Hq | ->]; [left; now apply atan_increasing | lra]. }
  assert (Hpos : x p < 0 -> y p < 0 -> 0 < atan (y p / x p)).
  { intros Hx Hy. rewrite <- atan_0. apply atan_increasing.
    unfold Rdiv. assert (/ x p < 0) by now apply Rinv_lt_0_compat. nra. }
  unfold angle.
  assert (Ht : - PI < atan2 (y p) (x p) <= PI).
  { unfold atan2. repeat case_decide; try lra;
      first [ specialize (Hneg ltac:(lra) ltac:(lra))
            | specialize (Hpos ltac:(lra) ltac:(lra)) ]; lra. }
  specialize (Hs _ Ht). split_decisions.
Qed.

(** The reset loop of [update_radar] returns the agent as it found it. *)
Lemma radar_init_loop_id self : radar_init_loop self = self.
Proof.
  unfold radar_init_loop. generalize (radar self) as slots.
  induction slots as [| slot slots IH]; [reflexivity | exact IH].
Qed.

Lemma radar_position_lookup i :
  (i < 8)%nat -> is_Some (radar_position !! i).
Proof. intros Hi. apply lookup_lt_is_Some. exact Hi. Qed.

Lemma calculate_msg_to_total self aimed_robot :
  is_Some (calculate_msg_to self aimed_robot).
Proof.
  unfold calculate_msg_to. apply radar_position_lookup, find_radar_index_lt.
Qed.

(** On a receiver with its 8-slot register [update_radar] returns, and
    this is the agent it leaves. *)
Lemma update_radar_eq self sender :
  List.length (radar self) = 8%nat ->
  exists msg,
    calculate_msg_to sender self = Some msg /\
    update_radar self sender =
    Some (mkAgent (agent_id self) (heading self) (angular_vel self)
            (radius self) (location self) (mode self) (radar_range self)
            (received_1 self sender) (received_2 self sender)
            (msg_sen_1 self) (msg_sen_2 self)
            (<[reception_sector self sender := Some msg]> (radar self))).
Proof.
  intros Hlen.
  destruct (calculate_msg_to_total sender self) as [msg Hmsg].
  exists msg. split; [exact Hmsg |].
  unfold update_radar. rewrite radar_init_loop_id, Hmsg.
  cbn [mbind option_bind].
  fold (reception_sector self sender).
  unfold list_store. rewrite Hlen.
  pose proof (find_radar_index_lt
                (heading self -
                 angle (mkPoint (x (location self) - x (location sender))
                                (y (location self) - y (location sender)))))
    as Hlt.
  fold (reception_sector self sender) in Hlt.
  rewrite decide_True by exact Hlt.
  cbn [mbind option_bind].
  unfold received_1, received_2.
  destruct self; repeat case_decide; reflexivity.
Qed.

Lemma update_radar_length self sender self' :
  update_radar self sender = Some self' ->
  List.length (radar self') = List.length (radar self).
Proof.
  unfold update_radar. rewrite radar_init_loop_id.
  destruct (calculate_msg_to sender self) as [msg |]; [| discriminate].
  cbn [mbind option_bind]. unfold list_store.
  destruct (decide (_ < _)%nat); [| discriminate]. cbn [mbind option_bind].
  repeat case_decide; intros [= <-]; cbn; apply length_insert.
Qed.

(** C10. A call of [update_radar] on a receiver (with its 8-slot register)
    and a sender in mode 0 or 1 returns; it leaves every agent other than
    the receiver, the sender among them, as it was, and of the receiver
    changes nothing but the radar register and the two incoming message
    slots, which become the sender's held (mode 0) or outgoing (mode 1)
    messages. *)
Theorem update_radar_frame (store : list Agent) (self sender : nat)
    (r s : Agent) :
  store !! self = Some r ->
  store !! sender = Some s ->
  List.length (radar r) = 8%nat ->
  mode s = 0%Z \/ mode s = 1%Z ->
  exists store' r',
    call_update_radar store self sender = Some store' /\
    (sender <> self -> store' !! sender = Some s) /\
    (forall k, k <> self -> store' !! k = store !! k) /\
    store' !! self = Some r' /\
    location r' = location r /\ heading r' = heading r /\
    angular_vel r' = angular_vel r /\ mode r' = mode r /\
    msg_sen_1 r' = msg_sen_1 r /\ msg_sen_2 r' = msg_sen_2 r /\
    agent_id r' = agent_id r /\ radius r' = radius r /\
    radar_range r' = radar_range r /\
    (mode s = 0%Z ->
     msg_rcv_1 r' = msg_rcv_1 s /\ msg_rcv_2 r' = msg_rcv_2 s) /\
    (mode s = 1%Z ->
     msg_rcv_1 r' = Some (msg_sen_1 s) /\ msg_rcv_2 r' = Some (msg_sen_2 s)).
Proof.
  intros Hr Hs Hlen Hmode.
  destruct (update_radar_eq r s Hlen) as (msg & _ & Hu).
  unfold call_update_radar. rewrite Hr, Hs. cbn [mbind option_bind].
  rewrite Hu. cbn [mbind option_bind].
  eexists _, _. split; [reflexivity |].
  split; [intros Hne; rewrite list_lookup_insert_ne by congruence; exact Hs |].
  split; [intros k Hk; apply list_lookup_insert_ne; congruence |].
  split; [apply list_lookup_insert_eq; now apply lookup_lt_Some with r |].
  cbn. unfold received_1, received_2.
  split_and!; try reflexivity; intros Hm; rewrite Hm; split; reflexivity.
Qed.

Lemma update_radar_frame_witness :
  let r := init (mkPoint 0 0) 0 100 0 8 1 80 in
  let s := init (mkPoint (-1) 0) 1 0 0 8 1 80 in
  exists store' r',
    call_update_radar [r; s] 0 1 = Some store' /\
    (1%nat <> 0%nat -> store' !! 1%nat = Some s) /\
    (forall k, k <> 0%nat -> store' !! k = [r; s] !! k) /\
    store' !! 0%nat = Some r' /\
    location r' = location r /\ heading r' = heading r /\
    angular_vel r' = angular_vel r /\ mode r' = mode r /\
    msg_sen_1 r' = msg_sen_1 r /\ msg_sen_2 r' = msg_sen_2 r /\
    agent_id r' = agent_id r /\ radius r' = radius r /\
    radar_range r' = radar_range r /\
    (mode s = 0%Z ->
     msg_rcv_1 r' = msg_rcv_1 s /\ msg_rcv_2 r' = msg_rcv_2 s) /\
    (mode s = 1%Z ->
     msg_rcv_1 r' = Some (msg_sen_1 s) /\ msg_rcv_2 r' = Some (msg_sen_2 s)).
Proof.
  intros r s.
  apply (update_radar_frame [r; s] 0 1 r s);
    [reflexivity | reflexivity | reflexivity | right; reflexivity].
Defined.

Lemma bearing_from_west :
  angle (mkPoint (x (location receiver_100) - x (location sender_west))
                 (y (location receiver_100) - y (location sender_west))) = 0.
Proof.
  cbn. replace (0 - -1) with 1 by lra. replace (0 - 0) with 0 by lra.
  apply angle_east.
Qed.

Lemma bearing_from_south :
  angle (mkPoint (x (location receiver_100) - x (location sender_south))
                 (y (location receiver_100) - y (location sender_south))) = 90.
Proof.
  cbn. replace (0 - -1) with 1 by lra. replace (0 - 0) with 0 by lra.
  apply angle_north.
Qed.

Lemma reception_sector_west : reception_sector receiver_100 sender_west = 3%nat.
Proof.
  unfold reception_sector. rewrite bearing_from_west.
  cbn [heading receiver_100 init]. rewrite find_radar_index_unfold.
  split_decisions.
Qed.

Lemma reception_sector_south :
  reception_sector receiver_100 sender_south = 0%nat.
Proof.
  unfold reception_sector. rewrite bearing_from_south.
  cbn [heading receiver_100 init]. rewrite find_radar_index_unfold.
  split_decisions.
Qed.

(** C3, at the failing input. The fresh receiver hears the western sender
    and then the southern one; the second call leaves two slots of the
    register occupied, sectors 0 and 3. *)
Theorem update_radar_keeps_stale_slot :
  exists r1 r2 m1 m2,
    update_radar receiver_100 sender_west = Some r1 /\
    update_radar r1 sender_south = Some r2 /\
    radar r1 = [None; None; None; Some m1; None; None; None; None] /\
    radar r2 = [Some m2; None; None; Some m1; None; None; None; None] /\
    occupied (radar r1) = 1%nat /\
    occupied (radar r2) = 2%nat.
Proof.
  destruct (update_radar_eq receiver_100 sender_west eq_refl)
    as (m1 & _ & H1).
  rewrite reception_sector_west in H1.
  match type of H1 with _ = Some ?a => set (r1 := a) in * end.
  destruct (update_radar_eq r1 sender_south eq_refl) as (m2 & _ & H2).
  change (reception_sector r1 sender_south)
    with (reception_sector receiver_100 sender_south) in H2.
  rewrite reception_sector_south in H2.
  eexists _, _, m1, m2. split; [exact H1 |]. split; [exact H2 |].
  repeat split.
Qed.

(** C5, at the failing input. The bearing from the western sender to the
    receiver is 0 and the receiver heads 100 degrees: bearing minus heading
    is -100, which the lookup answers with sector 0, but the message is filed
    in sector 3, the answer for heading minus bearing, and sector 0 stays
    empty. *)
Theorem update_radar_subtracts_bearing_from_heading :
  let bearing :=
    angle (mkPoint (x (location receiver_100) - x (location sender_west))
                   (y (location receiver_100) - y (location sender_west))) in
  bearing = 0 /\
  find_radar_index (bearing - heading receiver_100) = 0%nat /\
  find_radar_index (heading receiver_100 - bearing) = 3%nat /\
  exists r1 m,
    update_radar receiver_100 sender_west = Some r1 /\
    calculate_msg_to sender_west receiver_100 = Some m /\
    radar r1 !! 3%nat = Some (Some m) /\
    radar r1 !! 0%nat = Some None.
Proof.
  intros bearing. subst bearing. rewrite bearing_from_west.
  split; [reflexivity |].
  split; [cbn [heading receiver_100 init]; rewrite find_radar_index_unfold;
          split_decisions |].
  split; [cbn [heading receiver_100 init]; rewrite find_radar_index_unfold;
          split_decisions |].
  destruct (update_radar_eq receiver_100 sender_west eq_refl)
    as (m & Hm & H1).
  rewrite reception_sector_west in H1.
  eexists _, m. split; [exact H1 |]. split; [exact Hm |].
  split; reflexivity.
Qed.

(** What [update_radar] does in general: the message goes to the sector
    looked up for heading minus bearing, and every other slot keeps what it
    held before the call. *)
Lemma update_radar_slots self sender self' :
  update_radar self sender = Some self' ->
  exists msg,
    calculate_msg_to sender self = Some msg /\
    radar self' !! reception_sector self sender = Some (Some msg) /\
    forall k, k <> reception_sector self sender ->
              radar self' !! k = radar self !! k.
Proof.
  unfold update_radar. rewrite radar_init_loop_id.
  destruct (calculate_msg_to sender self) as [msg |]; [| discriminate].
  cbn [mbind option_bind]. fold (reception_sector self sender).
  unfold list_store.
  destruct (decide (_ < _)%nat) as [Hlt |]; [| discriminate].
  cbn [mbind option_bind]. intros Hu. exists msg. split; [reflexivity |].
  assert (Hr : radar self' =
               <[reception_sector self sender := Some msg]> (radar self))
    by (revert Hu; repeat case_decide; intros [= <-]; reflexivity).
  rewrite Hr. split.
  - now apply list_lookup_insert_eq.
  - intros k Hk. apply list_lookup_insert_ne. congruence.
Qed.

(** ** Communication round *)

Lemma update_radar_same_place self sender self' :
  update_radar self sender = Some self' ->
  agent_id self' = agent_id self /\ location self' = location self.
Proof.
  unfold update_radar. rewrite radar_init_loop_id.
  destruct (calculate_msg_to sender self) as [msg |]; [| discriminate].
  cbn [mbind option_bind]. unfold list_store.
  destruct (decide (_ < _)%nat); [| discriminate]. cbn [mbind option_bind].
  repeat case_decide; intros [= <-]; split; reflexivity.
Qed.

(** Replacing an agent by one with the same id at the same place keeps
    every agent's neighbours. *)
Lemma all_have_neighbour_insert agents i robot robot' :
  agents !! i = Some robot ->
  agent_id robot' = agent_id robot ->
  location robot' = location robot ->
  all_have_neighbour agents ->
  all_have_neighbour (<[i := robot']> agents).
Proof.
  intros Hi Hid Hloc Hall.
  assert (Hmove : forall a, a ∈ agents ->
            exists a', a' ∈ <[i := robot']> agents /\
                       agent_id a' = agent_id a /\ location a' = location a).
  { intros a [k Hk]%list_elem_of_lookup.
    destruct (decide (k = i)) as [-> | Hne].
    - assert (a = robot) as -> by congruence.
      exists robot'. split; [| auto].
      apply list_elem_of_lookup. exists i.
      apply list_lookup_insert_eq. now apply lookup_lt_Some with robot.
    - exists a. split; [| auto].
      apply list_elem_of_lookup. exists k.
      rewrite list_lookup_insert_ne by congruence. exact Hk. }
  assert (Hback : forall a', a' ∈ <[i := robot']> agents ->
            exists a, a ∈ agents /\
                      agent_id a' = agent_id a /\ location a' = location a).
  { intros a' [k Hk]%list_elem_of_lookup.
    destruct (decide (k = i)) as [-> | Hne].
    - rewrite list_lookup_insert_eq in Hk
        by now apply lookup_lt_Some with robot.
      injection Hk as <-. exists robot. split; [| auto].
      apply list_elem_of_lookup. now exists i.
    - rewrite list_lookup_insert_ne in Hk by congruence.
      exists a'. split; [| auto]. apply list_elem_of_lookup. now exists k. }
  intros r' Hr'.
  destruct (Hback r' Hr') as (r & Hr & Hrid & Hrloc).
  destruct (Hall r Hr) as (o & Ho & Hoid & Hodist).
  destruct (Hmove o Ho) as (o' & Ho' & Ho'id & Ho'loc).
  exists o'. split; [exact Ho' |]. unfold in_range.
  rewrite Hrid, Hrloc, Ho'id, Ho'loc. split; assumption.
Qed.

(** With a candidate in range, one pass of the loop of [communication]
    draws once and has the robot hear a sender in range. *)
Lemma communication_body_ok rng agents draws i robot :
  agents !! i = Some robot ->
  well_formed robot ->
  (exists other_robot, other_robot ∈ agents /\ in_range robot other_robot) ->
  exists selected_robot robot',
    selected_robot ∈ agents /\ in_range robot selected_robot /\
    update_radar robot selected_robot = Some robot' /\
    communication_body rng (agents, draws) i =
      Some (<[i := robot']> agents, S draws).
Proof.
  intros Hi Hwf (o & Ho & Hor).
  unfold communication_body. rewrite Hi. cbn [mbind option_bind].
  set (robots_in_range := filter (in_range robot) agents).
  assert (Hin : o ∈ robots_in_range)
    by (apply list_elem_of_filter; split; assumption).
  assert (Hlen : (0 < List.length robots_in_range)%nat).
  { destruct robots_in_range; [inversion Hin | simpl; lia]. }
  unfold randint. rewrite decide_False by lia. cbn [mbind option_bind].
  set (random_id := (0 + rng draws mod
                       (Z.of_nat (List.length robots_in_range) - 1 - 0 + 1))%Z).
  assert (Hid : (0 <= random_id < Z.of_nat (List.length robots_in_range))%Z).
  { unfold random_id.
    pose proof (Z.mod_pos_bound (rng draws)
                  (Z.of_nat (List.length robots_in_range) - 1 - 0 + 1)
                  ltac:(lia)).
    lia. }
  unfold py_index. rewrite decide_True by lia.
  destruct (lookup_lt_is_Some_2 robots_in_range (Z.to_nat random_id)
              ltac:(lia)) as [selected Hsel].
  rewrite Hsel. cbn [mbind option_bind].
  assert (Hsel' : selected ∈ robots_in_range)
    by (apply list_elem_of_lookup; eauto).
  apply list_elem_of_filter in Hsel' as [Hrange Hsel'].
  destruct (update_radar_eq robot selected Hwf) as (msg & _ & Hu).
  rewrite Hu. cbn [mbind option_bind].
  eexists selected, _. repeat split; try eassumption; apply Hrange.
Qed.

(** The loop of [communication] from position [i] on. *)
Lemma communication_loop_ok rng n i agents draws :
  (i + n = List.length agents)%nat ->
  Forall well_formed agents ->
  all_have_neighbour agents ->
  exists agents',
    for_each (communication_body rng) (seq i n) (agents, draws) =
      Some (agents', (draws + n)%nat) /\
    comm_rounds i agents agents'.
Proof.
  revert i agents draws. induction n as [| n IH]; intros i agents draws Hlen Hwf Hall.
  - exists agents. cbn. rewrite Nat.add_0_r.
    split; [reflexivity | apply comm_done; lia].
  - destruct (lookup_lt_is_Some_2 agents i ltac:(lia)) as [robot Hi].
    assert (Hrobot : robot ∈ agents) by (apply list_elem_of_lookup; eauto).
    pose proof (proj1 (Forall_forall _ _) Hwf robot Hrobot) as Hwfr.
    destruct (communication_body_ok rng agents draws i robot Hi Hwfr
                (Hall robot Hrobot))
      as (selected & robot' & Hsel & [Hid Hdist] & Hu & Hbody).
    destruct (update_radar_same_place _ _ _ Hu) as [Hsame_id Hsame_loc].
    destruct (IH (S i) (<[i := robot']> agents) (S draws)) as (agents' & Hrest & Hrounds).
    + rewrite length_insert. lia.
    + apply Forall_insert; [exact Hwf |].
      unfold well_formed. rewrite (update_radar_length _ _ _ Hu). exact Hwfr.
    + now apply all_have_neighbour_insert with robot.
    + exists agents'. split.
      * cbn [seq for_each]. rewrite Hbody. cbn [mbind option_bind].
        rewrite Hrest. f_equal. f_equal. lia.
      * now apply comm_round with robot selected robot'.
Qed.

(** C9. When every agent (each with its 8-slot register) has another agent
    within distance 80, [communication] returns: it makes one draw per
    agent, and each agent in turn has heard, through [update_radar], a
    sender chosen among the agents with another id at distance at most
    80. *)
Theorem communication_in_range (rng : nat -> Z) (env : Environment)
    (draws : nat) :
  Forall well_formed (agent_list env) ->
  all_have_neighbour (agent_list env) ->
  exists agents',
    communication rng env draws =
      Some (set_agent_list env agents',
            (draws + List.length (agent_list env))%nat) /\
    comm_rounds 0 (agent_list env) agents'.
Proof.
  intros Hwf Hall.
  destruct (communication_loop_ok rng (List.length (agent_list env)) 0
              (agent_list env) draws eq_refl Hwf Hall)
    as (agents' & Hloop & Hrounds).
  exists agents'. split; [| exact Hrounds].
  unfold communication. rewrite Hloop. reflexivity.
Qed.

(** ** Trial driver *)

Section driver.

Variable rng : nat -> Z.
Variable Net : Type.
Variable activate : Net -> list (option R) -> option (Net * list R).

Lemma evaluate_loop_reached k : forall n t tk t',
  steps_without_consensus rng activate k t = Some tk ->
  consensus_simulation_step rng activate tk = Some (t', true) ->
  (k < n)%nat ->
  evaluate_loop rng activate n t = Some (t', true).
Proof.
  induction k as [| k IH]; intros n t tk t' Hk Hstep Hlt;
    (destruct n as [| n]; [lia |]); cbn in Hk |- *.
  - injection Hk as ->. rewrite Hstep. reflexivity.
  - destruct (consensus_simulation_step rng activate t) as [[t1 [|]] |];
      cbn in Hk |- *; try discriminate.
    apply IH with tk; [assumption | assumption | lia].
Qed.

Lemma evaluate_loop_exhausted n : forall t t',
  steps_without_consensus rng activate n t = Some t' ->
  evaluate_loop rng activate n t = Some (t', false).
Proof.
  induction n as [| n IH]; intros t t' Hn; cbn in Hn |- *.
  - now injection Hn as ->.
  - destruct (consensus_simulation_step rng activate t) as [[t1 [|]] |];
      cbn in Hn |- *; try discriminate.
    now apply IH.
Qed.

(** A step that returns has looked at the first agent. *)
Lemma step_population t t' verified :
  consensus_simulation_step rng activate t = Some (t', verified) ->
  agent_list (env t') <> [].
Proof.
  unfold consensus_simulation_step.
  destruct (communication rng (env t) (draws t)) as [[env1 draws1] |];
    [| discriminate].
  cbn [mbind option_bind].
  destruct (for_each (step_body activate) _ _) as [[[agents net1] rol] |];
    [| discriminate].
  cbn [mbind option_bind].
  destruct (consensus_verified (set_agent_list env1 agents)) as [v |] eqn:Hv;
    [| discriminate].
  cbn [mbind option_bind]. intros [= <- _]. cbn [env].
  unfold consensus_verified in Hv.
  destruct (agent_list (set_agent_list env1 agents)); [discriminate | congruence].
Qed.

Lemma steps_population k : forall t t',
  steps_without_consensus rng activate (S k) t = Some t' ->
  agent_list (env t') <> [].
Proof.
  induction k as [| k IH]; intros t t' Hk; cbn [steps_without_consensus] in Hk;
    destruct (consensus_simulation_step rng activate t) as [[t1 [|]] |] eqn:H1;
    cbn in Hk; try discriminate.
  - injection Hk as <-. now apply step_population in H1.
  - now apply IH with t1.
Qed.

Lemma fitness_defined e :
  agent_list e <> [] -> is_Some (fitness e).
Proof.
  intros Hne. unfold fitness, avg_heading.
  destruct (agent_list e) as [| r0 l]; [congruence |].
  cbn [lookup list_lookup mbind option_bind].
  rewrite decide_False by (cbn; lia). eauto.
Qed.

(** C1. With the default budget of 600 steps the driver returns 1.0 from
    the first step that reports consensus, in the state that step left;
    when 600 steps pass without consensus it returns the environment's
    fitness if that is above 0.01 and 0.01 otherwise; and it never returns
    less than 0.01. *)
Theorem consensus_simulation_evaluate_spec (t : Trial Net) :
  (forall k tk t',
     (k < 600)%nat ->
     steps_without_consensus rng activate k t = Some tk ->
     consensus_simulation_step rng activate tk = Some (t', true) ->
     consensus_simulation_evaluate rng activate t 600 = Some (t', 1.0)) /\
  (forall t',
     steps_without_consensus rng activate 600 t = Some t' ->
     exists f,
       fitness (env t') = Some f /\
       consensus_simulation_evaluate rng activate t 600 =
         Some (t', if decide (f > 0.01) then f else 0.01)) /\
  (forall t' result,
     consensus_simulation_evaluate rng activate t 600 = Some (t', result) ->
     0.01 <= result).
Proof.
  unfold consensus_simulation_evaluate. split_and!.
  - intros k tk t' Hlt Hk Hstep.
    now rewrite (evaluate_loop_reached k 600 t tk t' Hk Hstep Hlt).
  - intros t' H600.
    destruct (fitness_defined (env t') (steps_population _ _ _ H600))
      as [f Hf].
    exists f. split; [exact Hf |].
    rewrite (evaluate_loop_exhausted 600 t t' H600).
    cbn [mbind option_bind]. rewrite Hf. cbn [mbind option_bind].
    repeat case_decide; try lra; reflexivity.
  - intros t' result.
    destruct (evaluate_loop rng activate 600 t) as [[t1 [|]] |];
      cbn [mbind option_bind]; try discriminate.
    + intros [= _ <-]. lra.
    + destruct (fitness (env t1)) as [f |]; cbn [mbind option_bind];
        [| discriminate].
      intros [= _ <-]. case_decide; lra.
Qed.

End driver.

(** ** A trial under a network that never turns *)

(** A loop over consecutive positions whose body keeps an invariant
    returns, in a state where the invariant holds. *)
Lemma for_each_seq_inv {S} (body : S -> nat -> option S)
    (P : nat -> S -> Prop) n : forall i st,
  P i st ->
  (forall j st, (i <= j < i + n)%nat -> P j st ->
     exists st', body st j = Some st' /\ P (Datatypes.S j) st') ->
  exists st', for_each body (seq i n) st = Some st' /\ P (i + n)%nat st'.
Proof.
  induction n as [| n IH]; intros i st HP Hbody.
  - exists st. rewrite Nat.add_0_r. split; [reflexivity | exact HP].
  - destruct (Hbody i st ltac:(lia) HP) as (st1 & H1 & HP1).
    destruct (IH (Datatypes.S i) st1 HP1) as (st' & Hrest & HP').
    + intros j st2 Hj. apply Hbody. lia.
    + exists st'. cbn [seq for_each]. rewrite H1. cbn [mbind option_bind].
      split; [exact Hrest |].
      replace (i + Datatypes.S n)%nat with (Datatypes.S i + n)%nat by lia.
      exact HP'.
Qed.

Lemma update_radar_heading self sender self' :
  update_radar self sender = Some self' -> heading self' = heading self.
Proof.
  unfold update_radar. rewrite radar_init_loop_id.
  destruct (calculate_msg_to sender self) as [msg |]; [| discriminate].
  cbn [mbind option_bind]. unfold list_store.
  destruct (decide (_ < _)%nat); [| discriminate]. cbn [mbind option_bind].
  repeat case_decide; intros [= <-]; reflexivity.
Qed.

Lemma update_radar_has_signal self sender self' :
  update_radar self sender = Some self' -> has_signal self'.
Proof.
  intros Hu. destruct (update_radar_slots _ _ _ Hu) as (msg & _ & Hs & _).
  now exists (reception_sector self sender), msg.
Qed.

(** Replacing an agent by one that differs in neither id, place nor
    heading, and is well formed, keeps the agents steady. *)
Lemma steady_insert hs agents i robot robot' :
  agents !! i = Some robot ->
  agent_id robot' = agent_id robot ->
  location robot' = location robot ->
  heading robot' = heading robot ->
  well_formed robot' ->
  steady hs agents ->
  steady hs (<[i := robot']> agents).
Proof.
  intros Hi Hid Hloc Hh Hwf (Hhs & Hwfs & Hnb & Hrange).
  split_and!.
  - rewrite list_fmap_insert, Hh. rewrite list_insert_id; [exact Hhs |].
    rewrite list_lookup_fmap, Hi. reflexivity.
  - now apply Forall_insert.
  - now apply all_have_neighbour_insert with robot.
  - apply Forall_insert; [exact Hrange |]. rewrite Hh.
    apply (proj1 (Forall_forall _ _) Hrange robot).
    apply list_elem_of_lookup. eauto.
Qed.

Lemma has_signal_insert agents i robot' :
  Forall has_signal agents -> has_signal robot' ->
  Forall has_signal (<[i := robot']> agents).
Proof. intros. now apply Forall_insert. Qed.

(** After a communication round of steady agents every agent holds a
    signal, and the agents are steady still. *)
Lemma communication_steady rng hs e d :
  steady hs (agent_list e) ->
  exists agents',
    communication rng e d =
      Some (set_agent_list e agents',
            (d + List.length (agent_list e))%nat) /\
    List.length agents' = List.length (agent_list e) /\
    steady hs agents' /\ Forall has_signal agents'.
Proof.
  intros Hst. set (N := List.length (agent_list e)).
  destruct (for_each_seq_inv (communication_body rng)
              (fun j st =>
                 st.2 = (d + j)%nat /\ List.length st.1 = N /\
                 steady hs st.1 /\
                 forall k a, (k < j)%nat -> st.1 !! k = Some a -> has_signal a)
              N 0 (agent_list e, d))
    as ([agents' d'] & Hloop & Hd & Hlen & Hst' & Hsig).
  - cbn. split_and!; [lia | reflexivity | exact Hst | intros; lia].
  - intros j [agents dj] Hj (Hd & Hlen & Hstj & Hsig). cbn in Hd, Hlen, Hstj, Hsig.
    subst dj.
    destruct (lookup_lt_is_Some_2 agents j ltac:(lia)) as [robot Hi].
    assert (Hrobot : robot ∈ agents) by (apply list_elem_of_lookup; eauto).
    destruct Hstj as (Hhs & Hwfs & Hnb & Hrange).
    pose proof (proj1 (Forall_forall _ _) Hwfs robot Hrobot) as Hwfr.
    destruct (communication_body_ok rng agents (d + j) j robot Hi Hwfr
                (Hnb robot Hrobot))
      as (selected & robot' & _ & _ & Hu & Hbody).
    destruct (update_radar_same_place _ _ _ Hu) as [Hsid Hsloc].
    eexists. split; [exact Hbody |]. cbn. split_and!.
    + lia.
    + now rewrite length_insert.
    + apply steady_insert with robot; try assumption.
      * now apply update_radar_heading in Hu.
      * unfold well_formed. now rewrite (update_radar_length _ _ _ Hu).
      * now split_and!.
    + intros k a Hk Ha. destruct (decide (k = j)) as [-> | Hne].
      * rewrite list_lookup_insert_eq in Ha by lia. injection Ha as <-.
        now apply update_radar_has_signal in Hu.
      * rewrite list_lookup_insert_ne in Ha by congruence.
        apply (Hsig k a); [lia | exact Ha].
  - cbn in Hd, Hlen, Hst', Hsig. exists agents'.
    unfold communication. fold N. rewrite Hloop. cbn [mbind option_bind].
    subst d'. split_and!; try assumption; [reflexivity |].
    apply Forall_forall. intros a [k Hk]%list_elem_of_lookup.
    apply (Hsig k a); [| exact Hk].
    rewrite <- Hlen. now apply lookup_lt_Some with a.
Qed.

Lemma first_signal_found slots : forall j,
  (exists k m, slots !! k = Some (Some m)) ->
  exists i m, first_signal j slots = Some (i, m) /\
              (j <= i < j + List.length slots)%nat.
Proof.
  induction slots as [| slot slots IH]; intros j (k & m & Hk).
  - discriminate.
  - destruct slot as [msg |]; cbn [first_signal].
    + exists j, msg. split; [reflexivity | cbn; lia].
    + destruct k as [| k]; [discriminate |].
      destruct (IH (S j) (ex_intro _ k (ex_intro _ m Hk)))
        as (i & m' & Hi & Hr).
      exists i, m'. split; [exact Hi | cbn; lia].
Qed.

Lemma create_net_inputs_ok a :
  well_formed a -> has_signal a -> is_Some (create_net_inputs a).
Proof.
  intros Hwf Hsig. unfold create_net_inputs.
  destruct (first_signal_found (radar a) 0 Hsig) as (i & m & -> & Hi).
  cbn [mbind option_bind]. rewrite Hwf in Hi.
  destruct (radar_position_lookup i ltac:(lia)) as [p ->].
  cbn [mbind option_bind]. eauto.
Qed.

Lemma still_heading h :
  0 <= h < 360 ->
  normalize_heading (h + 10 * clamp_angular_vel (0.5 - 0.5)) = h.
Proof.
  intros Hh. unfold normalize_heading, clamp_angular_vel, MAX_ANGULAR_VEL.
  split_decisions.
Qed.

(** One pass of the loop of a step, under the still network. *)
Lemma still_step_body agents n j robot :
  agents !! j = Some robot ->
  well_formed robot -> has_signal robot -> 0 <= heading robot < 360 ->
  exists robot',
    step_body still_net (agents, n, None) j =
      Some (<[j := robot']> agents, n, None) /\
    agent_id robot' = agent_id robot /\ location robot' = location robot /\
    heading robot' = heading robot /\ radar robot' = radar robot.
Proof.
  intros Hj Hwf Hsig Hh. unfold step_body. rewrite Hj.
  cbn [mbind option_bind].
  destruct (create_net_inputs_ok robot Hwf Hsig) as [inputs ->].
  cbn [mbind option_bind still_net]. rewrite apply_outputs_eq.
  cbn [mbind option_bind record_heading]. eexists. split; [reflexivity |].
  cbn. split_and!; try reflexivity. now apply still_heading.
Qed.

(** A step of steady agents under the still network returns and leaves
    them steady, with the headings they had. *)
Lemma still_step rng hs (t : Trial unit) :
  hs <> [] ->
  steady hs (agent_list (env t)) ->
  robot_orientation_list t = None ->
  exists t' verified,
    consensus_simulation_step rng still_net t = Some (t', verified) /\
    consensus_verified (env t') = Some verified /\
    steady hs (agent_list (env t')) /\
    robot_orientation_list t' = None.
Proof.
  intros Hne Hst Hrol. unfold consensus_simulation_step.
  destruct (communication_steady rng hs (env t) (draws t) Hst)
    as (agents1 & -> & Hlen1 & Hst1 & Hsig1).
  cbn [mbind option_bind]. rewrite Hrol.
  cbn [agent_list set_agent_list].
  set (N := List.length agents1).
  destruct (for_each_seq_inv (step_body still_net)
              (fun j st =>
                 st.1.2 = net t /\ st.2 = None /\ List.length st.1.1 = N /\
                 steady hs st.1.1 /\ Forall has_signal st.1.1)
              N 0 (agents1, net t, None))
    as ([[agents2 net2] rol2] & -> & Hnet & Hrol2 & Hlen2 & Hst2 & _).
  - cbn. now split_and!.
  - intros j [[agents n] rol] Hj (Hn & Hr & Hlen & Hstj & Hsig).
    cbn in Hn, Hr, Hlen, Hstj, Hsig. subst n rol.
    destruct (lookup_lt_is_Some_2 agents j ltac:(lia)) as [robot Hi].
    assert (Hrobot : robot ∈ agents) by (apply list_elem_of_lookup; eauto).
    pose proof Hstj as (_ & Hwfs & _ & Hrange).
    pose proof (proj1 (Forall_forall _ _) Hwfs robot Hrobot) as Hwfr.
    pose proof (proj1 (Forall_forall _ _) Hsig robot Hrobot) as Hsigr.
    pose proof (proj1 (Forall_forall _ _) Hrange robot Hrobot) as Hhr.
    destruct (still_step_body agents (net t) j robot Hi Hwfr Hsigr Hhr)
      as (robot' & Hbody & Hid & Hloc & Hh & Hrad).
    eexists. split; [exact Hbody |]. cbn. split_and!; try reflexivity.
    + now rewrite length_insert.
    + apply steady_insert with robot; try assumption.
      unfold well_formed. now rewrite Hrad.
    + apply has_signal_insert; [exact Hsig |].
      unfold has_signal. now rewrite Hrad.
  - cbn in Hnet, Hrol2, Hlen2, Hst2. subst net2 rol2.
    cbn [mbind option_bind].
    destruct (consensus_verified (set_agent_list (set_agent_list (env t) agents1) agents2))
      as [v |] eqn:Hv.
    + cbn [mbind option_bind]. eexists _, v. split; [reflexivity |].
      cbn [env robot_orientation_list]. now split_and!.
    + exfalso. unfold consensus_verified in Hv.
      cbn [agent_list set_agent_list] in Hv.
      destruct Hst2 as (Hhs2 & _).
      destruct agents2 as [| a l]; [cbn in Hhs2; congruence |].
      cbn in Hv. destruct (foldl _ _ _). discriminate.
Qed.

(** What [consensus_verified] answers for two agents. *)
Lemma consensus_verified_pair e h0 h1 :
  heading <$> agent_list e = [h0; h1] -> h0 <= h1 ->
  consensus_verified e = Some (bool_decide (h1 - h0 < 5)).
Proof.
  intros Hhs Hle. unfold consensus_verified.
  destruct (agent_list e) as [| a [| b [| c l]]]; try discriminate.
  injection Hhs as <- <-.
  cbn. unfold min_max_scan.
  repeat case_decide; try lra; f_equal; apply bool_decide_ext; split; lra.
Qed.

Lemma pair_distance :
  distance (mkPoint 0 0) (mkPoint 1 0) <= 80 /\
  distance (mkPoint 1 0) (mkPoint 0 0) <= 80.
Proof.
  unfold distance. cbn [x y].
  replace ((0 - 1) * (0 - 1) + (0 - 0) * (0 - 0)) with 1 by lra.
  replace ((1 - 0) * (1 - 0) + (0 - 0) * (0 - 0)) with 1 by lra.
  rewrite sqrt_1. lra.
Qed.

Lemma pair_env_neighbours h0 h1 :
  all_have_neighbour (agent_list (pair_env h0 h1)).
Proof.
  destruct pair_distance as [H01 H10].
  intros robot Hrobot. cbn in Hrobot.
  apply elem_of_cons in Hrobot as [-> | Hrobot];
    [| apply elem_of_cons in Hrobot as [-> | Hrobot]; [| inversion Hrobot]].
  - exists (init (mkPoint 1 0) 1 h1 0 8 1 80).
    split; [cbn; right; left | split; [cbn; lia | exact H01]].
  - exists (init (mkPoint 0 0) 0 h0 0 8 1 80).
    split; [cbn; left | split; [cbn; lia | exact H10]].
Qed.

Lemma pair_env_steady h0 h1 :
  0 <= h0 < 360 -> 0 <= h1 < 360 ->
  steady [h0; h1] (agent_list (pair_env h0 h1)).
Proof.
  intros H0 H1. split_and!.
  - reflexivity.
  - repeat constructor.
  - apply pair_env_neighbours.
  - constructor; [cbn; lra |]. constructor; [cbn; lra | constructor].
Qed.

(** Steady agents whose headings are not in consensus stay so, step after
    step, under the still network. *)
Lemma still_steps rng hs k : forall t : Trial unit,
  hs <> [] ->
  (forall e, heading <$> agent_list e = hs ->
             consensus_verified e = Some false) ->
  steady hs (agent_list (env t)) ->
  robot_orientation_list t = None ->
  exists t',
    steps_without_consensus rng still_net k t = Some t' /\
    steady hs (agent_list (env t')) /\
    robot_orientation_list t' = None.
Proof.
  induction k as [| k IH]; intros t Hne Hno Hst Hrol.
  - exists t. now split_and!.
  - destruct (still_step rng hs t Hne Hst Hrol)
      as (t1 & v & Hstep & Hv & Hst1 & Hrol1).
    rewrite (Hno (env t1) (proj1 Hst1)) in Hv. injection Hv as <-.
    destruct (IH t1 Hne Hno Hst1 Hrol1) as (t' & Hk & Hst' & Hrol').
    exists t'. cbn [steps_without_consensus]. rewrite Hstep.
    cbn [mbind option_bind]. now split_and!.
Qed.

Lemma consensus_simulation_evaluate_spec_witness :
  (exists t',
     consensus_simulation_evaluate (fun _ => 0%Z) still_net
       (pair_trial 10 12) 600 = Some (t', 1.0)) /\
  (exists t' f,
     fitness (env t') = Some f /\
     consensus_simulation_evaluate (fun _ => 0%Z) still_net
       (pair_trial 0 180) 600 =
       Some (t', if decide (f > 0.01) then f else 0.01)).
Proof.
  split.
  - destruct (still_step (fun _ => 0%Z) [10; 12] (pair_trial 10 12))
      as (t' & v & Hstep & Hv & Hst & _);
      [discriminate | apply pair_env_steady; lra | reflexivity |].
    rewrite (consensus_verified_pair (env t') 10 12 (proj1 Hst)) in Hv by lra.
    rewrite bool_decide_eq_true_2 in Hv by lra. injection Hv as <-.
    exists t'.
    apply (proj1 (consensus_simulation_evaluate_spec
                    (fun _ => 0%Z) unit still_net (pair_trial 10 12))
             0%nat (pair_trial 10 12) t');
      [lia | reflexivity | exact Hstep].
  - destruct (still_steps (fun _ => 0%Z) [0; 180] 600 (pair_trial 0 180))
      as (t' & Hsteps & _);
      [ discriminate
      | intros e He; rewrite (consensus_verified_pair e 0 180 He) by lra;
        now rewrite bool_decide_eq_false_2 by lra
      | apply pair_env_steady; lra | reflexivity |].
    exists t'.
    apply (proj1 (proj2 (consensus_simulation_evaluate_spec
                           (fun _ => 0%Z) unit still_net (pair_trial 0 180)))
             t' Hsteps).
Defined.

Lemma communication_in_range_witness :
  exists agents',
    communication (fun _ => 0%Z) (pair_env 10 12) 0 =
      Some (set_agent_list (pair_env 10 12) agents',
            (0 + List.length (agent_list (pair_env 10 12)))%nat) /\
    comm_rounds 0 (agent_list (pair_env 10 12)) agents'.
Proof.
  apply (communication_in_range (fun _ => 0%Z) (pair_env 10 12) 0).
  - repeat constructor.
  - apply pair_env_neighbours.
Defined.

(** Without a candidate in range the draw is from an empty range, and the
    round raises. *)
Lemma communication_body_no_candidate rng agents draws i robot :
  agents !! i = Some robot ->
  filter (in_range robot) agents = [] ->
  communication_body rng (agents, draws) i = None.
Proof.
  intros Hi Hnone. unfold communication_body.
  rewrite Hi. cbn [mbind option_bind]. rewrite Hnone. reflexivity.
Qed.

(** ** Further properties of the radar *)

Lemma radar_position_values :
  radar_position = [0; 30; 67.5; 120; 180; 240; 292.5; 330].
Proof.
  unfold radar_position, radar_angle. cbn [drop map fst snd].
  repeat (f_equal; try lra).
Qed.

(** Occupied slots under a write of a message. *)
Lemma occupied_insert slots : forall k m,
  (k < List.length slots)%nat ->
  occupied (<[k := Some m]> slots) =
    match slots !! k with
    | Some (Some _) => occupied slots
    | _ => S (occupied slots)
    end.
Proof.
  unfold occupied.
  induction slots as [| slot slots IH]; intros k m Hk; [cbn in Hk; lia |].
  destruct k as [| k].
  - cbn [insert list_insert lookup list_lookup].
    rewrite !filter_cons.
    destruct slot as [m0 |].
    + rewrite !decide_True by eauto. reflexivity.
    + rewrite decide_True by eauto.
      rewrite decide_False by (intros [? [=]]). reflexivity.
  - change (<[S k := Some m]> (slot :: slots))
      with (slot :: <[k := Some m]> slots).
    change ((slot :: slots) !! S k) with (slots !! k).
    cbn in Hk. specialize (IH k m ltac:(lia)).
    rewrite !filter_cons.
    destruct (decide (is_Some slot)); cbn [List.length]; rewrite IH;
      destruct (slots !! k) as [[?|]|]; reflexivity.
Qed.

(** X1. Whenever the receiver's heading is at most 15 degrees above the
    bearing from the sender (so whenever it is below it), [update_radar]
    files the message in sector 0: the difference heading minus bearing is
    looked up as it is, without being brought back into [0, 360). *)
Theorem update_radar_low_heading_sector_0 self sender :
  well_formed self ->
  heading self <=
    angle (mkPoint (x (location self) - x (location sender))
                   (y (location self) - y (location sender))) + 15 ->
  exists self' msg,
    update_radar self sender = Some self' /\
    calculate_msg_to sender self = Some msg /\
    radar self' !! 0%nat = Some (Some msg).
Proof.
  intros Hwf Hh.
  destruct (update_radar_eq self sender Hwf) as (msg & Hmsg & Hu).
  assert (Hs : reception_sector self sender = 0%nat).
  { unfold reception_sector. rewrite find_radar_index_unfold.
    split_decisions. }
  rewrite Hs in Hu. eexists _, msg. split; [exact Hu |].
  split; [exact Hmsg |]. cbn [radar].
  apply list_lookup_insert_eq. rewrite Hwf. lia.
Qed.

Lemma update_radar_low_heading_sector_0_witness :
  exists self' msg,
    update_radar (init (mkPoint 0 0) 0 10 0 8 1 80)
                 (init (mkPoint 0 (-1)) 2 0 0 8 1 80) = Some self' /\
    calculate_msg_to (init (mkPoint 0 (-1)) 2 0 0 8 1 80)
                     (init (mkPoint 0 0) 0 10 0 8 1 80) = Some msg /\
    radar self' !! 0%nat = Some (Some msg).
Proof.
  apply (update_radar_low_heading_sector_0
           (init (mkPoint 0 0) 0 10 0 8 1 80)
           (init (mkPoint 0 (-1)) 2 0 0 8 1 80)).
  - reflexivity.
  - cbn [heading location init x y].
    replace (0 - -1) with 1 by lra. replace (0 - 0) with 0 by lra.
    rewrite angle_north. lra.
Defined.

(** X2. [update_radar] never empties a slot: whatever was occupied stays
    occupied (only the slot written may change its content), so the count of
    occupied slots never decreases, grows by at most one, and is at least
    one after the call. *)
Theorem update_radar_never_clears self sender :
  well_formed self ->
  exists self',
    update_radar self sender = Some self' /\
    (forall k, (exists m, radar self !! k = Some (Some m)) ->
               exists m', radar self' !! k = Some (Some m')) /\
    (forall k, k <> reception_sector self sender ->
               radar self' !! k = radar self !! k) /\
    (occupied (radar self) <= occupied (radar self')
       <= S (occupied (radar self)))%nat /\
    (1 <= occupied (radar self'))%nat.
Proof.
  intros Hwf.
  destruct (update_radar_eq self sender Hwf) as (msg & _ & Hu).
  eexists. split; [exact Hu |]. cbn [radar].
  pose proof (find_radar_index_lt
                (heading self -
                 angle (mkPoint (x (location self) - x (location sender))
                                (y (location self) - y (location sender)))))
    as Hlt.
  fold (reception_sector self sender) in Hlt.
  assert (Hk : (reception_sector self sender < List.length (radar self))%nat)
    by (rewrite Hwf; exact Hlt).
  rewrite (occupied_insert _ _ msg Hk).
  split_and!.
  - intros k [m Hm].
    destruct (decide (k = reception_sector self sender)) as [-> | Hne].
    + exists msg. now apply list_lookup_insert_eq.
    + exists m. rewrite list_lookup_insert_ne by congruence. exact Hm.
  - intros k Hne. apply list_lookup_insert_ne. congruence.
  - destruct (radar self !! _) as [[?|]|]; lia.
  - destruct (radar self !! _) as [[?|]|]; lia.
  - destruct (radar self !! reception_sector self sender) as [[m|]|] eqn:E;
      try lia.
    unfold occupied.
    assert (Hin : Some m ∈ filter is_Some (radar self)).
    { apply list_elem_of_filter. split; [eauto |].
      apply list_elem_of_lookup. eauto. }
    destruct (filter is_Some (radar self)); [inversion Hin | cbn; lia].
Qed.

Lemma update_radar_never_clears_witness :
  exists self',
    update_radar receiver_100 sender_west = Some self' /\
    (forall k, (exists m, radar receiver_100 !! k = Some (Some m)) ->
               exists m', radar self' !! k = Some (Some m')) /\
    (forall k, k <> reception_sector receiver_100 sender_west ->
               radar self' !! k = radar receiver_100 !! k) /\
    (occupied (radar receiver_100) <= occupied (radar self')
       <= S (occupied (radar receiver_100)))%nat /\
    (1 <= occupied (radar self'))%nat.
Proof.
  apply (update_radar_never_clears receiver_100 sender_west). reflexivity.
Defined.

(** X3. A sender whose mode is neither 0 nor 1 still has its bearing filed
    in the receiver's radar, but the receiver's two incoming message slots
    stay as they were. *)
Theorem update_radar_other_mode self sender :
  well_formed self ->
  mode sender <> 0%Z -> mode sender <> 1%Z ->
  exists self' msg,
    update_radar self sender = Some self' /\
    calculate_msg_to sender self = Some msg /\
    radar self' !! reception_sector self sender = Some (Some msg) /\
    msg_rcv_1 self' = msg_rcv_1 self /\
    msg_rcv_2 self' = msg_rcv_2 self.
Proof.
  intros Hwf H0 H1.
  destruct (update_radar_eq self sender Hwf) as (msg & Hmsg & Hu).
  eexists _, msg. split; [exact Hu |]. split; [exact Hmsg |].
  cbn [radar msg_rcv_1 msg_rcv_2]. unfold received_1, received_2.
  rewrite !decide_False by assumption. split_and!; try reflexivity.
  apply list_lookup_insert_eq. rewrite Hwf.
  apply find_radar_index_lt.
Qed.

Lemma update_radar_other_mode_witness :
  let odd := set_mode sender_west 2 in
  exists self' msg,
    update_radar receiver_100 odd = Some self' /\
    calculate_msg_to odd receiver_100 = Some msg /\
    radar self' !! reception_sector receiver_100 odd = Some (Some msg) /\
    msg_rcv_1 self' = msg_rcv_1 receiver_100 /\
    msg_rcv_2 self' = msg_rcv_2 receiver_100.
Proof.
  intros odd.
  apply (update_radar_other_mode receiver_100 odd);
    [reflexivity | cbn; lia | cbn; lia].
Defined.

(** X4. Relay over two hops: when [b] hears [a], who is in emission mode,
    and [c] then hears [b], who is in relay mode, [c] holds the two messages
    [a] sent. *)
Theorem update_radar_relay a b c :
  well_formed b -> well_formed c ->
  mode a = 1%Z -> mode b = 0%Z ->
  exists b' c',
    update_radar b a = Some b' /\
    update_radar c b' = Some c' /\
    msg_rcv_1 c' = Some (msg_sen_1 a) /\
    msg_rcv_2 c' = Some (msg_sen_2 a).
Proof.
  intros Hb Hc Ha Hmb.
  destruct (update_radar_eq b a Hb) as (m1 & _ & H1).
  match type of H1 with _ = Some ?v => set (b' := v) in * end.
  destruct (update_radar_eq c b' Hc) as (m2 & _ & H2).
  eexists b', _. split; [exact H1 |]. split; [exact H2 |].
  cbn [msg_rcv_1 msg_rcv_2]. unfold received_1, received_2.
  cbn [mode msg_rcv_1 msg_rcv_2 b']. unfold received_1, received_2.
  rewrite Hmb, Ha. split; reflexivity.
Qed.

Lemma update_radar_relay_witness :
  let a := set_msg_sen_1 sender_west (2 / 3) in
  let b := set_mode sender_south 0 in
  exists b' c',
    update_radar b a = Some b' /\
    update_radar receiver_100 b' = Some c' /\
    msg_rcv_1 c' = Some (msg_sen_1 a) /\
    msg_rcv_2 c' = Some (msg_sen_2 a).
Proof.
  intros a b.
  apply (update_radar_relay a b receiver_100); reflexivity.
Defined.



(** The scan of [create_net_inputs] finds nothing exactly in an empty
    register, and otherwise stops at the first occupied slot. *)
Lemma first_signal_none slots : forall j,
  first_signal j slots = None <-> Forall (fun slot => slot = None) slots.
Proof.
  induction slots as [| [m |] slots IH]; intros j; cbn [first_signal].
  - split; [constructor | reflexivity].
  - split; [discriminate | intros H; inversion H; discriminate].
  - rewrite IH. split; [now constructor | now inversion 1].
Qed.

Lemma first_signal_first slots : forall j i m,
  slots !! i = Some (Some m) ->
  (forall k, (k < i)%nat -> slots !! k = Some None) ->
  first_signal j slots = Some ((j + i)%nat, m).
Proof.
  induction slots as [| slot slots IH]; intros j i m Hi Hbefore;
    [discriminate |].
  destruct i as [| i].
  - injection Hi as ->. cbn [first_signal]. now rewrite Nat.add_0_r.
  - pose proof (Hbefore 0%nat ltac:(lia)) as H0. injection H0 as ->.
    cbn [first_signal]. rewrite (IH (S j) i m Hi).
    + f_equal. f_equal. lia.
    + intros k Hk. apply (Hbefore (S k)). lia.
Qed.

(** X6. On an agent with its 8-slot register [create_net_inputs] raises
    exactly when every slot is empty (as on a freshly built agent);
    otherwise it reads the first occupied slot [i] and returns the mode, the
    position of radar [i] and the value held there, both divided by 360,
    and the two held messages. *)
Theorem create_net_inputs_first_slot self :
  well_formed self ->
  (create_net_inputs self = None <->
   forall k, (k < 8)%nat -> radar self !! k = Some None) /\
  (forall i m,
     radar self !! i = Some (Some m) ->
     (forall k, (k < i)%nat -> radar self !! k = Some None) ->
     exists p,
       radar_position !! i = Some p /\
       create_net_inputs self =
         Some [Some (IZR (mode self)); Some (p / 360.0); Some (m / 360.0);
               msg_rcv_1 self; msg_rcv_2 self]).
Proof.
  intros Hwf. split.
  - split.
    + intros Hnone k Hk.
      destruct (lookup_lt_is_Some_2 (radar self) k ltac:(rewrite Hwf; lia))
        as [[m |] Hslot]; [| exact Hslot].
      exfalso.
      assert (Hsig : has_signal self) by (now exists k, m).
      destruct (create_net_inputs_ok self Hwf Hsig) as [? Hsome].
      congruence.
    + intros Hall. unfold create_net_inputs.
      assert (Hfs : first_signal 0 (radar self) = None).
      { apply first_signal_none. apply Forall_forall.
        intros slot [k Hk]%list_elem_of_lookup.
        pose proof (lookup_lt_Some _ _ _ Hk) as Hlt. rewrite Hwf in Hlt.
        rewrite (Hall k Hlt) in Hk. now injection Hk as <-. }
      now rewrite Hfs.
  - intros i m Hi Hbefore.
    pose proof (lookup_lt_Some _ _ _ Hi) as Hlt. rewrite Hwf in Hlt.
    destruct (radar_position_lookup i Hlt) as [p Hp].
    exists p. split; [exact Hp |]. unfold create_net_inputs.
    rewrite (first_signal_first (radar self) 0 i m Hi Hbefore).
    cbn [mbind option_bind Nat.add]. rewrite Hp. reflexivity.
Qed.

Lemma create_net_inputs_first_slot_witness :
  create_net_inputs receiver_100 = None <->
  forall k, (k < 8)%nat -> radar receiver_100 !! k = Some None.
Proof.
  apply (create_net_inputs_first_slot receiver_100). reflexivity.
Defined.

(** ** Further properties of the control outputs *)

Lemma apply_outputs_ignores_rest self o0 o1 o2 o3 rest :
  apply_outputs self (o0 :: o1 :: o2 :: o3 :: rest) =
  apply_outputs self [o0; o1; o2; o3].
Proof. reflexivity. Qed.

(** X7. [apply_outputs] raises exactly when it is given fewer than four
    outputs, and whatever follows the fourth output has no effect. *)
Theorem apply_outputs_arity self outputs :
  (apply_outputs self outputs = None <-> (List.length outputs < 4)%nat) /\
  apply_outputs self outputs = apply_outputs self (take 4 outputs).
Proof.
  destruct outputs as [| o0 [| o1 [| o2 [| o3 rest]]]].
  5: { split; [| reflexivity].
       rewrite apply_outputs_ignores_rest, apply_outputs_eq.
       split; [discriminate | cbn; lia]. }
  all: split; [| reflexivity].
  all: split; [intros _; cbn; lia | intros _].
  all: unfold apply_outputs; cbn; repeat case_decide; reflexivity.
Qed.

(** X8. Given at least four outputs, [apply_outputs] returns and touches
    neither id, location, radius, radar range, held messages nor radar; it
    leaves the mode 0 or 1 (0 exactly when the first output is below 0.5),
    the angular velocity in [-3, 3], and each outgoing message at one of
    the levels 0, 1/3, 2/3, 1. *)
Theorem apply_outputs_frame self outputs :
  (4 <= List.length outputs)%nat ->
  exists self' out0,
    apply_outputs self outputs = Some self' /\
    outputs !! 0%nat = Some out0 /\
    agent_id self' = agent_id self /\ location self' = location self /\
    radius self' = radius self /\ radar_range self' = radar_range self /\
    msg_rcv_1 self' = msg_rcv_1 self /\ msg_rcv_2 self' = msg_rcv_2 self /\
    radar self' = radar self /\
    (mode self' = 0%Z <-> out0 < 0.5) /\
    (mode self' = 1%Z <-> ~ out0 < 0.5) /\
    -3.0 <= angular_vel self' <= 3.0 /\
    (msg_sen_1 self' = 0 \/ msg_sen_1 self' = 1 / 3 \/
     msg_sen_1 self' = 2 / 3 \/ msg_sen_1 self' = 1) /\
    (msg_sen_2 self' = 0 \/ msg_sen_2 self' = 1 / 3 \/
     msg_sen_2 self' = 2 / 3 \/ msg_sen_2 self' = 1).
Proof.
  intros Hlen.
  destruct outputs as [| o0 [| o1 [| o2 [| o3 rest]]]];
    try (cbn in Hlen; lia).
  rewrite apply_outputs_ignores_rest, apply_outputs_eq.
  eexists _, o0. split; [reflexivity |]. split; [reflexivity |].
  cbn [agent_id location radius radar_range msg_rcv_1 msg_rcv_2 radar mode
       angular_vel msg_sen_1 msg_sen_2].
  split_and!; try reflexivity.
  - case_decide; split; intros; first [assumption | reflexivity | contradiction | discriminate].
  - case_decide; split; intros; first [assumption | reflexivity | contradiction | discriminate].
  - unfold clamp_angular_vel, MAX_ANGULAR_VEL. split_decisions.
  - unfold clamp_angular_vel, MAX_ANGULAR_VEL. split_decisions.
  - unfold quantize. repeat case_decide; auto.
  - unfold quantize. repeat case_decide; auto.
Qed.

Lemma apply_outputs_frame_witness :
  exists self' out0,
    apply_outputs receiver_100 [0.2; 9; 0.4; 0.6; 7] = Some self' /\
    [0.2; 9; 0.4; 0.6; 7] !! 0%nat = Some out0 /\
    agent_id self' = agent_id receiver_100 /\
    location self' = location receiver_100 /\
    radius self' = radius receiver_100 /\
    radar_range self' = radar_range receiver_100 /\
    msg_rcv_1 self' = msg_rcv_1 receiver_100 /\
    msg_rcv_2 self' = msg_rcv_2 receiver_100 /\
    radar self' = radar receiver_100 /\
    (mode self' = 0%Z <-> out0 < 0.5) /\
    (mode self' = 1%Z <-> ~ out0 < 0.5) /\
    -3.0 <= angular_vel self' <= 3.0 /\
    (msg_sen_1 self' = 0 \/ msg_sen_1 self' = 1 / 3 \/
     msg_sen_1 self' = 2 / 3 \/ msg_sen_1 self' = 1) /\
    (msg_sen_2 self' = 0 \/ msg_sen_2 self' = 1 / 3 \/
     msg_sen_2 self' = 2 / 3 \/ msg_sen_2 self' = 1).
Proof.
  apply (apply_outputs_frame receiver_100 [0.2; 9; 0.4; 0.6; 7]).
  cbn. lia.
Defined.

(** X9. The quantizer of either channel is monotone, and on an output in
    [0, 1] it sends the level nearest to it: the message is within 1/6 of
    the output. *)
Theorem quantization_nearest_level self o0 o1 o v v' :
  v <= v' ->
  exists q q',
    channel_1 self o0 o1 o v = Some q /\
    channel_2 self o0 o1 o v = Some q /\
    channel_1 self o0 o1 o v' = Some q' /\
    q <= q' /\
    (0 <= v <= 1 -> Rabs (q - v) <= 1 / 6).
Proof.
  intros Hle. exists (quantize v), (quantize v').
  rewrite !channel_1_eq, channel_2_eq. split_and!; try reflexivity.
  - unfold quantize. split_decisions.
  - intros Hv. unfold quantize, Rabs.
    repeat case_decide; destruct (Rcase_abs _); lra.
Qed.

Lemma quantization_nearest_level_witness :
  exists q q',
    channel_1 receiver_100 0 0 0 0.4 = Some q /\
    channel_2 receiver_100 0 0 0 0.4 = Some q /\
    channel_1 receiver_100 0 0 0 0.6 = Some q' /\
    q <= q' /\
    (0 <= 0.4 <= 1 -> Rabs (q - 0.4) <= 1 / 6).
Proof.
  apply (quantization_nearest_level receiver_100 0 0 0 0.4 0.6). lra.
Defined.

(** ** Further properties of the fitness *)

Lemma deg_to_rad_closed_range d :
  0 <= d <= 360 -> 0 <= deg_to_rad d <= 2 * PI.
Proof.
  intros Hd. unfold deg_to_rad. pose proof PI_RGT_0 as Hpi.
  split; nra.
Qed.

(** The two factors of the individual fitness, for headings in range. *)
Lemma individual_fitness_factors self avg_heading :
  0 <= heading self <= 360 ->
  0 <= avg_heading <= 360 ->
  exists l,
    individual_fitness self avg_heading = l * (1 - Rabs (angular_vel self)) /\
    0 <= l <= 1 /\
    (heading self = avg_heading -> l = 1).
Proof.
  intros Hh Ha. pose proof PI_RGT_0 as Hpi.
  pose proof (deg_to_rad_closed_range _ Hh) as Hh'.
  pose proof (deg_to_rad_closed_range _ Ha) as Ha'.
  unfold individual_fitness. rewrite py_min_Rmin.
  set (h := deg_to_rad (heading self)) in *.
  set (a := deg_to_rad avg_heading) in *.
  set (t := Rabs (h - a)).
  assert (Ht : 0 <= t <= 2 * PI)
    by (unfold t, Rabs; destruct (Rcase_abs _); lra).
  set (m := Rmin (2 * PI - t) t).
  assert (Hm : 0 <= m <= PI)
    by (unfold m, Rmin; destruct (Rle_dec _ _); lra).
  assert (Hq : 0 <= m / PI <= 1).
  { split.
    - apply Rmult_le_pos; [lra | left; now apply Rinv_0_lt_compat].
    - apply (Rmult_le_reg_r PI); [lra |]. field_simplify; lra. }
  exists (1 - m / PI). split; [reflexivity |]. split; [lra |].
  intros He.
  assert (Hz : m = 0).
  { assert (h = a) as Hha by (unfold h, a; now rewrite He).
    unfold m, Rmin. unfold t, Rabs in *.
    destruct (Rle_dec _ _); destruct (Rcase_abs _); lra. }
  rewrite Hz. unfold Rdiv. lra.
Qed.

(** X10. For headings in [0, 360] the individual fitness never exceeds 1,
    is 1 for an agent that heads the average heading and does not turn, and
    does not depend on the sign of the angular velocity. *)
Theorem individual_fitness_maximum self avg_heading :
  0 <= heading self <= 360 ->
  0 <= avg_heading <= 360 ->
  individual_fitness self avg_heading <= 1 /\
  (heading self = avg_heading -> angular_vel self = 0 ->
   individual_fitness self avg_heading = 1) /\
  individual_fitness (set_angular_vel self (- angular_vel self)) avg_heading =
    individual_fitness self avg_heading.
Proof.
  intros Hh Ha.
  destruct (individual_fitness_factors self avg_heading Hh Ha)
    as (l & Heq & Hl & Hl1).
  pose proof (Rabs_pos (angular_vel self)) as Hv.
  split_and!.
  - rewrite Heq. nra.
  - intros Hhd Hz. rewrite Heq, (Hl1 Hhd), Hz, Rabs_R0. lra.
  - unfold individual_fitness. cbn [heading angular_vel set_angular_vel].
    now rewrite Rabs_Ropp.
Qed.

Lemma individual_fitness_maximum_witness :
  individual_fitness receiver_100 100 <= 1 /\
  (heading receiver_100 = 100 -> angular_vel receiver_100 = 0 ->
   individual_fitness receiver_100 100 = 1) /\
  individual_fitness
    (set_angular_vel receiver_100 (- angular_vel receiver_100)) 100 =
    individual_fitness receiver_100 100.
Proof.
  apply (individual_fitness_maximum receiver_100 100); cbn; lra.
Defined.

(** ** Loops over positions *)

(** What a loop that returned has established, from an invariant its body
    keeps. *)
Lemma for_each_seq_post {S} (body : S -> nat -> option S)
    (P : nat -> S -> Prop) n : forall i st st',
  for_each body (seq i n) st = Some st' ->
  P i st ->
  (forall j s s1, (i <= j < i + n)%nat -> P j s -> body s j = Some s1 ->
                  P (Datatypes.S j) s1) ->
  P (i + n)%nat st'.
Proof.
  induction n as [| n IH]; intros i st st' Hrun HP Hbody.
  - cbn in Hrun. injection Hrun as <-. now rewrite Nat.add_0_r.
  - cbn [seq for_each] in Hrun.
    destruct (body st i) as [s1 |] eqn:H1; [| discriminate].
    cbn [mbind option_bind] in Hrun.
    replace (i + Datatypes.S n)%nat with (Datatypes.S i + n)%nat by lia.
    apply (IH (Datatypes.S i) s1 st' Hrun).
    + apply (Hbody i st s1); [lia | exact HP | exact H1].
    + intros j s s2 Hj. apply Hbody. lia.
Qed.

(** In a loop that returned, every pass returned, from a state where the
    invariant held. *)
Lemma for_each_seq_passes {S} (body : S -> nat -> option S)
    (P : nat -> S -> Prop) n : forall i st st',
  for_each body (seq i n) st = Some st' ->
  P i st ->
  (forall j s s1, (i <= j < i + n)%nat -> P j s -> body s j = Some s1 ->
                  P (Datatypes.S j) s1) ->
  forall j, (i <= j < i + n)%nat ->
    exists s s1, P j s /\ body s j = Some s1.
Proof.
  induction n as [| n IH]; intros i st st' Hrun HP Hbody j Hj; [lia |].
  cbn [seq for_each] in Hrun.
  destruct (body st i) as [s1 |] eqn:H1; [| discriminate].
  cbn [mbind option_bind] in Hrun.
  destruct (decide (j = i)) as [-> | Hne]; [now exists st, s1 |].
  apply (IH (Datatypes.S i) s1 st' Hrun); [| | lia].
  - apply (Hbody i st s1); [lia | exact HP | exact H1].
  - intros k s s2 Hk. apply Hbody. lia.
Qed.

(** ** Further properties of the communication round *)

Lemma update_radar_heard self sender self' :
  update_radar self sender = Some self' -> heard self self'.
Proof.
  intros Hu. split_and!.
  - revert Hu. unfold update_radar. rewrite radar_init_loop_id.
    destruct (calculate_msg_to sender self) as [msg |]; [| discriminate].
    cbn [mbind option_bind]. unfold list_store.
    destruct (decide (_ < _)%nat); [| discriminate].
    cbn [mbind option_bind].
    repeat case_decide; intros [= <-]; unfold same_motion; cbn;
      now split_and!.
  - now apply update_radar_length in Hu.
  - now apply update_radar_has_signal in Hu.
Qed.

(** A pass of the loop of [communication] that returns has drawn once and
    made the robot hear an agent of the in-range list. *)
Lemma communication_body_inv rng agents draws i agents' draws' :
  communication_body rng (agents, draws) i = Some (agents', draws') ->
  exists robot selected_robot robot',
    agents !! i = Some robot /\
    selected_robot ∈ agents /\ in_range robot selected_robot /\
    update_radar robot selected_robot = Some robot' /\
    agents' = <[i := robot']> agents /\ draws' = S draws.
Proof.
  unfold communication_body.
  destruct (agents !! i) as [robot |] eqn:Hi; [| discriminate].
  cbn [mbind option_bind].
  destruct (randint _ _ _) as [random_id |]; [| discriminate].
  cbn [mbind option_bind].
  destruct (py_index _ random_id) as [selected |] eqn:Hsel; [| discriminate].
  cbn [mbind option_bind].
  destruct (update_radar robot selected) as [robot' |] eqn:Hu;
    [| discriminate].
  cbn [mbind option_bind]. intros [= <- <-].
  exists robot, selected, robot'.
  assert (Hin : selected ∈ filter (in_range robot) agents).
  { unfold py_index in Hsel. apply list_elem_of_lookup.
    repeat case_decide; [eauto | eauto | discriminate]. }
  apply list_elem_of_filter in Hin as [Hrange Hin].
  now split_and!.
Qed.

Lemma comm_progress_start agents0 draws0 :
  comm_progress agents0 draws0 0 (agents0, draws0).
Proof.
  split_and!; cbn; [lia | reflexivity |].
  intros k a0 Hk. exists a0. split_and!; [exact Hk | lia | reflexivity].
Qed.

Lemma comm_progress_step rng agents0 draws0 j st st1 :
  comm_progress agents0 draws0 j st ->
  communication_body rng st j = Some st1 ->
  comm_progress agents0 draws0 (S j) st1.
Proof.
  destruct st as [agents d], st1 as [agents1 d1].
  intros (Hd & Hlen & Hpos) Hbody. cbn in Hd, Hlen, Hpos.
  destruct (communication_body_inv _ _ _ _ _ _ Hbody)
    as (robot & selected & robot' & Hi & _ & _ & Hu & -> & ->).
  split_and!; cbn.
  - lia.
  - now rewrite length_insert.
  - intros k a0 Hk. destruct (Hpos k a0 Hk) as (a & Ha & Hlt & Hge).
    destruct (decide (k = j)) as [-> | Hne].
    + exists robot'. split_and!.
      * apply list_lookup_insert_eq. now apply lookup_lt_Some with robot.
      * intros _. assert (a = a0) as <- by (apply Hge; lia).
        assert (a = robot) as -> by congruence.
        now apply update_radar_heard with selected.
      * lia.
    + exists a. split_and!.
      * rewrite list_lookup_insert_ne by congruence. exact Ha.
      * intros Hk'. apply Hlt. lia.
      * intros Hk'. apply Hge. lia.
Qed.

(** What a communication round that returned has done. *)
Lemma communication_post rng e d e' d' :
  communication rng e d = Some (e', d') ->
  d' = (d + List.length (agent_list e))%nat /\
  e' = set_agent_list e (agent_list e') /\
  Forall2 heard (agent_list e) (agent_list e').
Proof.
  unfold communication.
  destruct (for_each _ _ _) as [[agents' d1] |] eqn:Hloop; [| discriminate].
  cbn [mbind option_bind]. intros [= <- <-].
  pose proof (for_each_seq_post (communication_body rng)
                (comm_progress (agent_list e) d)
                (List.length (agent_list e)) 0 _ _ Hloop
                (comm_progress_start _ _)) as Hpost.
  destruct Hpost as (Hd & Hlen & Hpos).
  { intros j s s1 _. apply comm_progress_step. }
  cbn in Hd, Hlen, Hpos. split_and!; [lia | reflexivity |].
  cbn [agent_list set_agent_list].
  apply Forall2_same_length_lookup. split; [now rewrite Hlen |].
  intros k a0 a Hk Ha.
  destruct (Hpos k a0 Hk) as (a1 & Ha1 & Hlt & _).
  assert (a1 = a) as -> by congruence.
  apply Hlt. now apply lookup_lt_Some with a0.
Qed.

Lemma heard_in_range a0 a b0 b :
  heard a0 a \/ a = a0 -> heard b0 b \/ b = b0 ->
  in_range a b -> in_range a0 b0.
Proof.
  intros Ha Hb [Hne Hdist].
  assert (agent_id a = agent_id a0 /\ location a = location a0) as [Hid Hloc]
    by (destruct Ha as [((? & ? & _) & _) | ->]; auto).
  assert (agent_id b = agent_id b0 /\ location b = location b0) as [Hbid Hbloc]
    by (destruct Hb as [((? & ? & _) & _) | ->]; auto).
  unfold in_range. now rewrite <- Hid, <- Hloc, <- Hbid, <- Hbloc.
Qed.

(** A round that returns shows a neighbour for every agent. *)
Lemma communication_needs_neighbours rng e d :
  is_Some (communication rng e d) -> all_have_neighbour (agent_list e).
Proof.
  intros [[e' d'] Hc]. unfold communication in Hc.
  destruct (for_each _ _ _) as [[agents' d1] |] eqn:Hloop; [| discriminate].
  intros robot0 [j Hj]%list_elem_of_lookup.
  pose proof (lookup_lt_Some _ _ _ Hj) as Hlt.
  destruct (for_each_seq_passes (communication_body rng)
              (comm_progress (agent_list e) d)
              (List.length (agent_list e)) 0 _ _ Hloop
              (comm_progress_start _ _)
              ltac:(intros k s s1 _; apply comm_progress_step)
              j ltac:(lia))
    as ([agents dj] & [agents1 d2] & (_ & Hlen & Hpos) & Hbody).
  cbn in Hlen, Hpos.
  destruct (communication_body_inv _ _ _ _ _ _ Hbody)
    as (robot & selected & robot' & Hi & Hsel & Hrange & _).
  destruct (Hpos j robot0 Hj) as (a & Ha & _ & Hge).
  assert (a = robot0) as -> by (apply Hge; lia).
  assert (robot = robot0) as -> by congruence.
  apply list_elem_of_lookup in Hsel as [k Hk].
  pose proof (lookup_lt_Some _ _ _ Hk) as Hk'. rewrite Hlen in Hk'.
  destruct (lookup_lt_is_Some_2 (agent_list e) k Hk') as [b0 Hb0].
  destruct (Hpos k b0 Hb0) as (b & Hb & Hblt & Hbge).
  assert (b = selected) as -> by congruence.
  exists b0. split; [apply list_elem_of_lookup; eauto |].
  apply (heard_in_range robot0 robot0 b0 selected);
    [now right | | exact Hrange].
  destruct (decide (k < j)%nat); [left; auto | right; apply Hbge; lia].
Qed.

(** X11. For agents with their 8-slot register, [communication] returns
    exactly when every agent has another agent (another id) within distance
    80; otherwise the draw of a sender is from an empty range and raises. *)
Theorem communication_returns_iff rng e d :
  Forall well_formed (agent_list e) ->
  (is_Some (communication rng e d) <-> all_have_neighbour (agent_list e)).
Proof.
  intros Hwf. split; [apply communication_needs_neighbours |].
  intros Hall.
  destruct (communication_loop_ok rng (List.length (agent_list e)) 0
              (agent_list e) d eq_refl Hwf Hall) as (agents' & Hloop & _).
  unfold communication. rewrite Hloop. cbn. eauto.
Qed.

Lemma communication_returns_iff_witness :
  is_Some (communication (fun _ => 0%Z) (pair_env 10 12) 0) <->
  all_have_neighbour (agent_list (pair_env 10 12)).
Proof.
  apply (communication_returns_iff (fun _ => 0%Z) (pair_env 10 12) 0).
  repeat constructor.
Defined.

(** X12. A communication round that returns has made one draw per agent
    and changed, in every agent, nothing but the radar register (which
    keeps its length and now holds a signal) and the two incoming message
    slots; the field and the number of agents are as before. *)
Theorem communication_frame rng e d e' d' :
  communication rng e d = Some (e', d') ->
  d' = (d + List.length (agent_list e))%nat /\
  length e' = length e /\ height e' = height e /\
  List.length (agent_list e') = List.length (agent_list e) /\
  Forall2 (fun a a' =>
             same_motion a a' /\
             List.length (radar a') = List.length (radar a) /\
             has_signal a')
          (agent_list e) (agent_list e').
Proof.
  intros Hc. destruct (communication_post _ _ _ _ _ Hc) as (Hd & He & Hh).
  split_and!; try assumption.
  - now rewrite He.
  - now rewrite He.
  - symmetry. now apply Forall2_length in Hh.
Qed.

Lemma communication_frame_witness :
  exists e' d',
    communication (fun _ => 0%Z) (pair_env 10 12) 0 = Some (e', d') /\
    d' = (0 + List.length (agent_list (pair_env 10 12)))%nat /\
    length e' = length (pair_env 10 12) /\
    height e' = height (pair_env 10 12) /\
    List.length (agent_list e') = List.length (agent_list (pair_env 10 12)) /\
    Forall2 (fun a a' =>
               same_motion a a' /\
               List.length (radar a') = List.length (radar a) /\
               has_signal a')
            (agent_list (pair_env 10 12)) (agent_list e').
Proof.
  destruct (communication_loop_ok (fun _ => 0%Z) 2 0
              (agent_list (pair_env 10 12)) 0 eq_refl
              ltac:(repeat constructor) (pair_env_neighbours 10 12))
    as (agents' & Hloop & _).
  assert (Hc : communication (fun _ => 0%Z) (pair_env 10 12) 0 =
               Some (set_agent_list (pair_env 10 12) agents', 2%nat))
    by (unfold communication;
        change (List.length (agent_list (pair_env 10 12))) with 2%nat;
        now rewrite Hloop).
  eexists _, _. split; [exact Hc |].
  apply (communication_frame (fun _ => 0%Z) (pair_env 10 12) 0 _ _ Hc).
Defined.

(** ** Aggregate fitness *)

(** A sum accumulated over the agents, under a bound on its terms. *)
Lemma foldl_sum_le (g : Agent -> R) hi l : forall s0,
  Forall (fun r => g r <= hi) l ->
  foldl (fun sum_r r => sum_r + g r) s0 l <= s0 + INR (List.length l) * hi.
Proof.
  induction l as [| r l IH]; intros s0 Hall.
  - cbn. lra.
  - apply Forall_cons in Hall as [Hr Hl].
    specialize (IH (s0 + g r) Hl).
    cbn [foldl]. change (List.length (r :: l)) with (S (List.length l)).
    rewrite S_INR. nra.
Qed.

Lemma foldl_sum_ge (g : Agent -> R) lo l : forall s0,
  Forall (fun r => lo <= g r) l ->
  s0 + INR (List.length l) * lo <= foldl (fun sum_r r => sum_r + g r) s0 l.
Proof.
  induction l as [| r l IH]; intros s0 Hall.
  - cbn. lra.
  - apply Forall_cons in Hall as [Hr Hl].
    specialize (IH (s0 + g r) Hl).
    cbn [foldl]. change (List.length (r :: l)) with (S (List.length l)).
    rewrite S_INR. nra.
Qed.

Lemma avg_heading_range e a :
  avg_heading e = Some a -> 0 <= a < 360.
Proof.
  unfold avg_heading.
  destruct (agent_list e !! 0%nat); [| discriminate].
  cbn [mbind option_bind]. intros [= <-]. apply angle_range.
Qed.

Lemma individual_fitness_range self avg_heading :
  0 <= heading self <= 360 -> 0 <= avg_heading <= 360 ->
  individual_fitness self avg_heading <= 1 /\
  (-3.0 <= angular_vel self <= 3.0 ->
   -2 <= individual_fitness self avg_heading).
Proof.
  intros Hh Ha.
  destruct (individual_fitness_factors self avg_heading Hh Ha)
    as (l & -> & Hl & _).
  pose proof (Rabs_pos (angular_vel self)) as Hv. split; [nra |].
  intros Hav.
  assert (Rabs (angular_vel self) <= 3)
    by (unfold Rabs; destruct (Rcase_abs _); lra).
  nra.
Qed.

(** The fitness of a population with headings in range. *)
Lemma fitness_range e :
  agent_list e <> [] ->
  Forall (fun a => 0 <= heading a <= 360) (agent_list e) ->
  exists f,
    fitness e = Some f /\ f <= 1 /\
    (Forall (fun a => -3.0 <= angular_vel a <= 3.0) (agent_list e) ->
     -2 <= f).
Proof.
  intros Hne Hh. unfold fitness.
  destruct (avg_heading e) as [avg |] eqn:Havg.
  2: { unfold avg_heading in Havg.
       destruct (agent_list e); [congruence | discriminate]. }
  assert (Hr : 0 <= avg <= 360)
    by (pose proof (avg_heading_range e avg Havg); lra).
  cbn [mbind option_bind].
  assert (Hn : (0 < List.length (agent_list e))%nat)
    by (destruct (agent_list e); [congruence | cbn; lia]).
  rewrite decide_False by lia.
  eexists. split; [reflexivity |].
  pose proof (lt_0_INR _ Hn) as HN.
  set (N := INR (List.length (agent_list e))) in *.
  assert (Hdiv : forall s, 1 / N * s = s / N) by (intros; field; lra).
  rewrite Hdiv. split.
  - pose proof (foldl_sum_le (fun r => individual_fitness r avg) 1
                  (agent_list e) 0) as Hs.
    fold N in Hs.
    apply (Rmult_le_reg_r N); [exact HN |].
    replace (foldl _ 0 (agent_list e) / N * N)
      with (foldl (fun sum_r r => sum_r + individual_fitness r avg) 0
                  (agent_list e)) by (field; lra).
    rewrite Rmult_1_l. rewrite Rplus_0_l, Rmult_1_r in Hs. apply Hs.
    eapply Forall_impl; [exact Hh |].
    intros a Ha. now apply individual_fitness_range.
  - intros Hav.
    pose proof (foldl_sum_ge (fun r => individual_fitness r avg) (-2)
                  (agent_list e) 0) as Hs.
    fold N in Hs.
    apply (Rmult_le_reg_r N); [exact HN |].
    replace (foldl _ 0 (agent_list e) / N * N)
      with (foldl (fun sum_r r => sum_r + individual_fitness r avg) 0
                  (agent_list e)) by (field; lra).
    rewrite Rplus_0_l in Hs. rewrite (Rmult_comm (-2) N). apply Hs.
    apply Forall_forall. intros a Ha.
    apply individual_fitness_range; [| exact Hr |].
    + exact (proj1 (Forall_forall _ _) Hh a Ha).
    + exact (proj1 (Forall_forall _ _) Hav a Ha).
Qed.

(** X13. [fitness] raises exactly on an empty population.  For agents with
    headings in [0, 360) it is at most 1, and at least -2 when their
    angular velocities are in [-3, 3]. *)
Theorem fitness_bounds e :
  (fitness e = None <-> agent_list e = []) /\
  (agent_list e <> [] ->
   Forall (fun a => 0 <= heading a < 360) (agent_list e) ->
   exists f,
     fitness e = Some f /\ f <= 1 /\
     (Forall (fun a => -3.0 <= angular_vel a <= 3.0) (agent_list e) ->
      -2 <= f)).
Proof.
  split.
  2: { intros Hne Hh. apply fitness_range; [exact Hne |].
       eapply Forall_impl; [exact Hh |]. intros a Ha. cbn. lra. }
  split.
  - intros Hnone. destruct (agent_list e) as [| r0 l] eqn:El; [reflexivity |].
    destruct (fitness_defined e) as [f Hf]; [rewrite El; discriminate |].
    congruence.
  - intros Hnil. unfold fitness, avg_heading. now rewrite Hnil.
Qed.

Lemma fitness_bounds_witness :
  exists f,
    fitness (pair_env 10 12) = Some f /\ f <= 1 /\
    (Forall (fun a => -3.0 <= angular_vel a <= 3.0)
            (agent_list (pair_env 10 12)) ->
     -2 <= f).
Proof.
  apply (proj2 (fitness_bounds (pair_env 10 12))).
  - discriminate.
  - constructor; [cbn; lra |]. constructor; [cbn; lra | constructor].
Defined.

(** ** Simulation step *)

Lemma apply_outputs_inv self outputs self' :
  apply_outputs self outputs = Some self' ->
  exists o0 o1 o2 o3 rest,
    outputs = o0 :: o1 :: o2 :: o3 :: rest /\
    self' =
      mkAgent (agent_id self)
        (normalize_heading (heading self + 10 * clamp_angular_vel (o1 - 0.5)))
        (clamp_angular_vel (o1 - 0.5))
        (radius self) (location self)
        (if decide (o0 < 0.5) then 0%Z else 1%Z)
        (radar_range self) (msg_rcv_1 self) (msg_rcv_2 self)
        (quantize o2) (quantize o3) (radar self).
Proof.
  destruct outputs as [| o0 [| o1 [| o2 [| o3 rest]]]].
  5: { rewrite apply_outputs_ignores_rest, apply_outputs_eq.
       intros [= <-]. now exists o0, o1, o2, o3, rest. }
  all: unfold apply_outputs; cbn; repeat case_decide; discriminate.
Qed.

Lemma clamp_angular_vel_range v : -3.0 <= clamp_angular_vel v <= 3.0.
Proof. unfold clamp_angular_vel, MAX_ANGULAR_VEL. split_decisions. Qed.

Lemma normalize_heading_range h v :
  0 <= h <= 360 -> -3.0 <= v <= 3.0 ->
  0 <= normalize_heading (h + 10 * v) <= 360.
Proof. intros Hh Hv. unfold normalize_heading. split_decisions. Qed.

(** Hearing a sender and then applying outputs is a step of the agent. *)
Lemma heard_acted_stepped a0 a1 a2 :
  heard a0 a1 -> acted a1 a2 -> stepped a0 a2.
Proof.
  intros ((Hid & Hloc & Hh & _ & Hrad & _ & Hrr & _) & Hlen & Hsig)
         [outputs Ho].
  destruct (apply_outputs_inv _ _ _ Ho)
    as (o0 & o1 & o2 & o3 & rest & _ & ->).
  unfold stepped.
  cbn [agent_id location radius radar_range radar angular_vel mode heading].
  split_and!; try congruence.
  - destruct Hsig as (k & m & Hk). now exists k, m.
  - apply clamp_angular_vel_range.
  - apply clamp_angular_vel_range.
  - case_decide; auto.
Qed.

Lemma stepped_heading_range a a' :
  stepped a a' -> 0 <= heading a <= 360 -> 0 <= heading a' <= 360.
Proof.
  intros (_ & _ & _ & _ & _ & _ & Hv & _ & ->) Hh.
  now apply normalize_heading_range.
Qed.

(** A pass of the loop of a step that returns. *)
Lemma step_body_inv {Net} (activate : Net -> list (option R) -> option (Net * list R))
    agents n rol i agents' n' rol' :
  step_body activate (agents, n, rol) i = Some (agents', n', rol') ->
  exists robot inputs outputs robot',
    agents !! i = Some robot /\
    create_net_inputs robot = Some inputs /\
    activate n inputs = Some (n', outputs) /\
    apply_outputs robot outputs = Some robot' /\
    agents' = <[i := robot']> agents /\
    record_heading rol i (heading robot') = Some rol'.
Proof.
  unfold step_body.
  destruct (agents !! i) as [robot |] eqn:Hi; [| discriminate].
  cbn [mbind option_bind].
  destruct (create_net_inputs robot) as [inputs |] eqn:Hin; [| discriminate].
  cbn [mbind option_bind].
  destruct (activate n inputs) as [[n1 outputs] |] eqn:Hact; [| discriminate].
  cbn [mbind option_bind].
  destruct (apply_outputs robot outputs) as [robot' |] eqn:Ho;
    [| discriminate].
  cbn [mbind option_bind].
  destruct (record_heading rol i (heading robot')) as [rol1 |] eqn:Hrec;
    [| discriminate].
  cbn [mbind option_bind]. intros [= <- <- <-].
  now exists robot, inputs, outputs, robot'.
Qed.

Lemma step_progress_start {Net} agents1 (n : Net) rol0 :
  step_progress agents1 rol0 0 (agents1, n, rol0).
Proof.
  split_and!; cbn.
  - reflexivity.
  - intros k a1 Hk. exists a1. split_and!; [exact Hk | lia | reflexivity].
  - destruct rol0 as [rows0 |]; [| exact I].
    split; [reflexivity |]. intros k. split; [lia | reflexivity].
Qed.

Lemma step_progress_step {Net}
    (activate : Net -> list (option R) -> option (Net * list R))
    agents1 rol0 j st st1 :
  step_progress agents1 rol0 j st ->
  step_body activate st j = Some st1 ->
  step_progress agents1 rol0 (S j) st1.
Proof.
  destruct st as [[agents n] rol], st1 as [[agents' n'] rol'].
  intros (Hlen & Hpos & Hrol) Hbody. cbn in Hlen, Hpos, Hrol.
  destruct (step_body_inv _ _ _ _ _ _ _ _ Hbody)
    as (robot & inputs & outputs & robot' & Hi & _ & _ & Ho & -> & Hrec).
  pose proof (lookup_lt_Some _ _ _ Hi) as Hj.
  split_and!; cbn.
  - now rewrite length_insert.
  - intros k a1 Hk. destruct (Hpos k a1 Hk) as (a & Ha & Hlt & Hge).
    destruct (decide (k = j)) as [-> | Hne].
    + exists robot'. split_and!.
      * now apply list_lookup_insert_eq.
      * intros _. assert (a = a1) as <- by (apply Hge; lia).
        assert (a = robot) as -> by congruence. now exists outputs.
      * lia.
    + exists a. split_and!.
      * rewrite list_lookup_insert_ne by congruence. exact Ha.
      * intros Hk'. apply Hlt. lia.
      * intros Hk'. apply Hge. lia.
  - destruct rol0 as [rows0 |], rol as [rows |]; try contradiction.
    + cbn [record_heading] in Hrec.
      destruct (rows !! j) as [row |] eqn:Hrow; [| discriminate].
      cbn [mbind option_bind] in Hrec. injection Hrec as <-.
      destruct Hrol as (Hrl & Hrows). split; [now rewrite length_insert |].
      intros k. split.
      * intros Hk. destruct (decide (k = j)) as [-> | Hne].
        -- exists row, robot'. split_and!.
           ++ rewrite <- Hrow. symmetry. apply (Hrows j). lia.
           ++ now apply list_lookup_insert_eq.
           ++ apply list_lookup_insert_eq. now apply lookup_lt_Some with row.
        -- destruct (proj1 (Hrows k) ltac:(lia)) as (row0 & a & H0 & Ha & Hr).
           exists row0, a. split_and!; [exact H0 | |].
           ++ rewrite list_lookup_insert_ne by congruence. exact Ha.
           ++ rewrite list_lookup_insert_ne by congruence. exact Hr.
      * intros Hk. rewrite list_lookup_insert_ne by lia.
        apply (Hrows k). lia.
    + cbn [record_heading] in Hrec. now injection Hrec as <-.
Qed.

(** What a step that returned has done to the agents and the recorder. *)
Lemma step_post rng {Net}
    (activate : Net -> list (option R) -> option (Net * list R))
    (t t' : Trial Net) verified :
  consensus_simulation_step rng activate t = Some (t', verified) ->
  draws t' = (draws t + List.length (agent_list (env t)))%nat /\
  length (env t') = length (env t) /\ height (env t') = height (env t) /\
  consensus_verified (env t') = Some verified /\
  Forall2 stepped (agent_list (env t)) (agent_list (env t')) /\
  match robot_orientation_list t, robot_orientation_list t' with
  | None, None => True
  | Some rows0, Some rows =>
      rows_progress rows0 (List.length (agent_list (env t)))
                    (agent_list (env t')) rows
  | _, _ => False
  end.
Proof.
  unfold consensus_simulation_step.
  destruct (communication rng (env t) (draws t)) as [[e1 d1] |] eqn:Hc;
    [| discriminate].
  cbn [mbind option_bind].
  destruct (for_each _ _ _) as [[[agents2 n2] rol2] |] eqn:Hloop;
    [| discriminate].
  cbn [mbind option_bind].
  destruct (consensus_verified _) as [v |] eqn:Hv; [| discriminate].
  cbn [mbind option_bind]. intros [= <- <-]. cbn [env draws net robot_orientation_list].
  destruct (communication_post _ _ _ _ _ Hc) as (Hd & He1 & Hheard).
  pose proof (for_each_seq_post (step_body activate)
                (step_progress (agent_list e1) (robot_orientation_list t))
                (List.length (agent_list e1)) 0 _ _ Hloop
                (step_progress_start _ _ _)
                ltac:(intros j s s1 _; apply step_progress_step))
    as (Hlen & Hpos & Hrol).
  cbn in Hlen, Hpos, Hrol.
  pose proof (Forall2_length _ _ _ Hheard) as Hl01.
  split_and!.
  - exact Hd.
  - rewrite He1. reflexivity.
  - rewrite He1. reflexivity.
  - exact Hv.
  - cbn [agent_list set_agent_list].
    apply Forall2_same_length_lookup. split; [congruence |].
    intros k a0 a2 Hk0 Hk2.
    destruct (lookup_lt_is_Some_2 (agent_list e1) k) as [a1 Hk1].
    { rewrite <- Hl01. now apply lookup_lt_Some with a0. }
    destruct (Hpos k a1 Hk1) as (a & Ha & Hlt & _).
    assert (a = a2) as -> by congruence.
    apply heard_acted_stepped with a1.
    + now apply (Forall2_lookup_lr _ _ _ k a0 a1 Hheard).
    + apply Hlt. now apply lookup_lt_Some with a1.
  - cbn [agent_list set_agent_list].
    destruct (robot_orientation_list t) as [rows0 |], rol2 as [rows |];
      try contradiction; [| exact I].
    now rewrite Hl01.
Qed.

Lemma all_have_neighbour_same_place agents agents' :
  Forall2 (fun a a' => agent_id a' = agent_id a /\ location a' = location a)
          agents agents' ->
  all_have_neighbour agents -> all_have_neighbour agents'.
Proof.
  intros Hsame Hall robot' [k Hk]%list_elem_of_lookup.
  destruct (Forall2_lookup_r _ _ _ _ _ Hsame Hk) as (robot & Hr & Hid & Hloc).
  destruct (Hall robot) as (o & [m Hm]%list_elem_of_lookup & Hne & Hdist).
  { apply list_elem_of_lookup. eauto. }
  destruct (Forall2_lookup_l _ _ _ _ _ Hsame Hm) as (o' & Ho' & Hoid & Holoc).
  exists o'. split; [apply list_elem_of_lookup; eauto |].
  unfold in_range. now rewrite Hid, Hloc, Hoid, Holoc.
Qed.

(** A step from a ready state, under a total network, returns. *)
Lemma step_returns rng {Net}
    (activate : Net -> list (option R) -> option (Net * list R))
    (t : Trial Net) :
  total_network activate -> trial_ready t ->
  exists t' verified,
    consensus_simulation_step rng activate t = Some (t', verified).
Proof.
  intros Htot (Hne & Hwf & Hnb & _ & Hrol).
  unfold consensus_simulation_step.
  destruct (communication_loop_ok rng (List.length (agent_list (env t))) 0
              (agent_list (env t)) (draws t) eq_refl Hwf Hnb)
    as (agents1 & Hloop & _).
  assert (Hc : communication rng (env t) (draws t) =
               Some (set_agent_list (env t) agents1,
                     (draws t + List.length (agent_list (env t)))%nat))
    by (unfold communication; now rewrite Hloop).
  rewrite Hc. cbn [mbind option_bind agent_list set_agent_list].
  destruct (communication_post _ _ _ _ _ Hc) as (_ & _ & Hheard).
  cbn [agent_list set_agent_list] in Hheard.
  pose proof (Forall2_length _ _ _ Hheard) as Hl01.
  set (N := List.length agents1).
  destruct (for_each_seq_inv (step_body activate)
              (fun j st =>
                 List.length st.1.1 = N /\
                 Forall well_formed st.1.1 /\ Forall has_signal st.1.1 /\
                 match st.2 with
                 | None => True
                 | Some rows => (N <= List.length rows)%nat
                 end)
              N 0 (agents1, net t, robot_orientation_list t))
    as ([[agents2 n2] rol2] & -> & Hlen2 & _).
  - cbn. split_and!.
    + reflexivity.
    + apply Forall_forall. intros a1 [k Hk]%list_elem_of_lookup.
      destruct (Forall2_lookup_r _ _ _ _ _ Hheard Hk)
        as (a0 & Hk0 & _ & Hlen & _).
      unfold well_formed. rewrite Hlen.
      apply (proj1 (Forall_forall _ _) Hwf a0).
      apply list_elem_of_lookup. eauto.
    + apply Forall_forall. intros a1 [k Hk]%list_elem_of_lookup.
      now destruct (Forall2_lookup_r _ _ _ _ _ Hheard Hk)
        as (a0 & _ & _ & _ & Hsig).
    + destruct (robot_orientation_list t); [| exact I].
      unfold N. now rewrite <- Hl01.
  - intros j [[agents n] rol] Hj (Hlen & Hwfs & Hsigs & Hrows).
    cbn in Hlen, Hwfs, Hsigs, Hrows.
    destruct (lookup_lt_is_Some_2 agents j ltac:(lia)) as [robot Hi].
    assert (Hrobot : robot ∈ agents) by (apply list_elem_of_lookup; eauto).
    pose proof (proj1 (Forall_forall _ _) Hwfs robot Hrobot) as Hwfr.
    pose proof (proj1 (Forall_forall _ _) Hsigs robot Hrobot) as Hsigr.
    destruct (create_net_inputs_ok robot Hwfr Hsigr) as [inputs Hin].
    destruct (Htot n inputs) as (n' & outputs & Hact & Hfour).
    destruct outputs as [| o0 [| o1 [| o2 [| o3 rest]]]];
      try (cbn in Hfour; lia).
    assert (Hrec : exists rol',
               record_heading rol j
                 (normalize_heading
                    (heading robot + 10 * clamp_angular_vel (o1 - 0.5))) =
                 Some rol' /\
               match rol' with
               | None => True
               | Some rows => (N <= List.length rows)%nat
               end).
    { destruct rol as [rows |]; [| now exists None].
      destruct (lookup_lt_is_Some_2 rows j ltac:(lia)) as [row Hrow].
      eexists. cbn [record_heading]. rewrite Hrow. cbn [mbind option_bind].
      split; [reflexivity |]. cbn beta iota. now rewrite length_insert. }
    destruct Hrec as (rol' & Hrec & Hrows').
    eexists. unfold step_body. rewrite Hi. cbn [mbind option_bind].
    rewrite Hin. cbn [mbind option_bind]. rewrite Hact.
    cbn [mbind option_bind].
    rewrite apply_outputs_ignores_rest, apply_outputs_eq.
    cbn [mbind option_bind heading]. rewrite Hrec. cbn [mbind option_bind].
    split; [reflexivity |]. cbn. split_and!.
    + now rewrite length_insert.
    + apply Forall_insert; [exact Hwfs | exact Hwfr].
    + apply Forall_insert; [exact Hsigs | exact Hsigr].
    + exact Hrows'.
  - cbn in Hlen2. cbn [mbind option_bind].
    destruct agents2 as [| a2 l2].
    { exfalso. cbn in Hlen2. unfold N in Hlen2.
      destruct (agent_list (env t)); [congruence | cbn in Hl01; lia]. }
    unfold consensus_verified. cbn [agent_list set_agent_list].
    cbn [lookup list_lookup mbind option_bind].
    destruct (foldl min_max_scan _ _). cbn. eauto.
Qed.

(** A step keeps a ready state ready. *)
Lemma step_keeps_ready rng {Net}
    (activate : Net -> list (option R) -> option (Net * list R))
    (t t' : Trial Net) verified :
  consensus_simulation_step rng activate t = Some (t', verified) ->
  trial_ready t -> trial_ready t'.
Proof.
  intros Hstep (Hne & Hwf & Hnb & Hh & Hrol).
  destruct (step_post _ _ _ _ _ Hstep) as (_ & _ & _ & _ & Hst & Hrows).
  pose proof (Forall2_length _ _ _ Hst) as Hlen.
  split_and!.
  - destruct (agent_list (env t')); [| discriminate].
    destruct (agent_list (env t)); [congruence | discriminate].
  - apply Forall_forall. intros a' [k Hk]%list_elem_of_lookup.
    destruct (Forall2_lookup_r _ _ _ _ _ Hst Hk)
      as (a & Ha & _ & _ & _ & _ & Hl & _).
    unfold well_formed. rewrite Hl.
    apply (proj1 (Forall_forall _ _) Hwf a).
    apply list_elem_of_lookup. eauto.
  - apply all_have_neighbour_same_place with (agent_list (env t));
      [| exact Hnb].
    eapply Forall2_impl; [exact Hst |].
    intros a a' (Hid & Hloc & _). now split.
  - apply Forall_forall. intros a' [k Hk]%list_elem_of_lookup.
    destruct (Forall2_lookup_r _ _ _ _ _ Hst Hk) as (a & Ha & Hs).
    apply (stepped_heading_range a a' Hs).
    apply (proj1 (Forall_forall _ _) Hh a).
    apply list_elem_of_lookup. eauto.
  - destruct (robot_orientation_list t) as [rows0 |],
             (robot_orientation_list t') as [rows |];
      try contradiction; [| exact I].
    destruct Hrows as [Hl _]. lia.
Qed.

(** The loop of the driver, from a ready state under a total network,
    returns in a ready state. *)
Lemma evaluate_loop_returns rng {Net}
    (activate : Net -> list (option R) -> option (Net * list R)) n :
  forall t : Trial Net,
  total_network activate -> trial_ready t ->
  exists t' reached,
    evaluate_loop rng activate n t = Some (t', reached) /\ trial_ready t'.
Proof.
  induction n as [| n IH]; intros t Htot Hready.
  - exists t, false. now split.
  - destruct (step_returns rng activate t Htot Hready) as (t1 & v & Hstep).
    pose proof (step_keeps_ready _ _ _ _ _ Hstep Hready) as Hready1.
    cbn [evaluate_loop]. rewrite Hstep. cbn [mbind option_bind].
    destruct v; [now exists t1, true |].
    now apply IH.
Qed.

(** The driver from a ready state under a total network. *)
Lemma evaluate_returns rng {Net}
    (activate : Net -> list (option R) -> option (Net * list R))
    (t : Trial Net) time_steps :
  total_network activate -> trial_ready t ->
  exists t' result,
    consensus_simulation_evaluate rng activate t time_steps =
      Some (t', result) /\
    0.01 <= result <= 1 /\ trial_ready t'.
Proof.
  intros Htot Hready.
  destruct (evaluate_loop_returns rng activate time_steps t Htot Hready)
    as (t' & reached & Hloop & Hready').
  unfold consensus_simulation_evaluate. rewrite Hloop.
  cbn [mbind option_bind].
  destruct reached.
  - exists t', 1.0. split_and!; [reflexivity | lra | lra | exact Hready'].
  - destruct Hready' as (Hne & Hwf & Hnb & Hh & Hrol).
    destruct (fitness_range (env t') Hne Hh) as (f & Hf & Hf1 & _).
    rewrite Hf. cbn [mbind option_bind].
    eexists t', _. split; [reflexivity |].
    split; [case_decide; lra | now split_and!].
Qed.

Lemma still_net_total : total_network still_net.
Proof. intros n inputs. exists n, [1; 0.5; 0; 0]. split; [reflexivity | cbn; lia]. Qed.

Lemma pair_trial_ready h0 h1 :
  0 <= h0 < 360 -> 0 <= h1 < 360 -> trial_ready (pair_trial h0 h1).
Proof.
  intros H0 H1. destruct (pair_env_steady h0 h1 H0 H1) as (_ & Hwf & Hnb & Hh).
  split_and!; [discriminate | exact Hwf | exact Hnb | | exact I].
  eapply Forall_impl; [exact Hh |]. intros a Ha. cbn. lra.
Qed.

Lemma recorded_pair_trial_ready h0 h1 :
  0 <= h0 < 360 -> 0 <= h1 < 360 -> trial_ready (recorded_pair_trial h0 h1).
Proof.
  intros H0 H1. destruct (pair_env_steady h0 h1 H0 H1) as (_ & Hwf & Hnb & Hh).
  split_and!; [discriminate | exact Hwf | exact Hnb | | cbn; lia].
  eapply Forall_impl; [exact Hh |]. intros a Ha. cbn. lra.
Qed.

Lemma stepped_step_outcome a a' : stepped a a' -> step_outcome a a'.
Proof.
  intros Hs.
  pose proof Hs as (Hid & Hloc & Hrad & Hrr & Hlen & Hsig & Hv & Hm & _).
  split; [unfold same_body; tauto |].
  split; [exact Hsig |]. split; [exact Hv |]. split; [exact Hm |].
  now apply stepped_heading_range.
Qed.

(** X14. A step that returns has made one draw per agent, left the field
    and every agent's id, location, radius, radar range and register length
    as they were, and left every agent with a signal, an angular velocity
    in [-3, 3], a mode 0 or 1 and, when its heading was in [0, 360], a
    heading in [0, 360]; the value returned is [consensus_verified] of the
    new state. *)
Theorem consensus_simulation_step_frame rng {Net}
    (activate : Net -> list (option R) -> option (Net * list R))
    (t t' : Trial Net) verified :
  consensus_simulation_step rng activate t = Some (t', verified) ->
  draws t' = (draws t + List.length (agent_list (env t)))%nat /\
  length (env t') = length (env t) /\ height (env t') = height (env t) /\
  consensus_verified (env t') = Some verified /\
  Forall2 step_outcome (agent_list (env t)) (agent_list (env t')) /\
  (robot_orientation_list t = None -> robot_orientation_list t' = None).
Proof.
  intros Hstep.
  destruct (step_post _ _ _ _ _ Hstep) as (Hd & Hl & Hh & Hv & Hst & Hrows).
  split_and!; try assumption.
  - eapply Forall2_impl; [exact Hst | apply stepped_step_outcome].
  - intros Hnone. rewrite Hnone in Hrows.
    destruct (robot_orientation_list t'); [contradiction | reflexivity].
Qed.

Lemma consensus_simulation_step_frame_witness :
  exists t' verified,
    consensus_simulation_step (fun _ => 0%Z) still_net (pair_trial 10 12) =
      Some (t', verified) /\
    draws t' =
      (draws (pair_trial 10 12) +
       List.length (agent_list (env (pair_trial 10 12))))%nat /\
    length (env t') = length (env (pair_trial 10 12)) /\
    height (env t') = height (env (pair_trial 10 12)) /\
    consensus_verified (env t') = Some verified /\
    Forall2 step_outcome (agent_list (env (pair_trial 10 12)))
            (agent_list (env t')) /\
    (robot_orientation_list (pair_trial 10 12) = None ->
     robot_orientation_list t' = None).
Proof.
  destruct (step_returns (fun _ => 0%Z) still_net (pair_trial 10 12)
              still_net_total
              (pair_trial_ready 10 12 ltac:(lra) ltac:(lra)))
    as (t' & v & Hstep).
  exists t', v. split; [exact Hstep |].
  apply (consensus_simulation_step_frame _ _ _ _ _ Hstep).
Defined.

(** X15. When a recorder is passed, a step that returns has appended to the
    row of every agent the heading that agent has after the step, and left
    the other rows alone; so the recorder had a row for every agent. *)
Theorem consensus_simulation_step_records rng {Net}
    (activate : Net -> list (option R) -> option (Net * list R))
    (t t' : Trial Net) verified rows0 :
  consensus_simulation_step rng activate t = Some (t', verified) ->
  robot_orientation_list t = Some rows0 ->
  exists rows,
    robot_orientation_list t' = Some rows /\
    (List.length (agent_list (env t)) <= List.length rows0)%nat /\
    List.length rows = List.length rows0 /\
    (forall k a', agent_list (env t') !! k = Some a' ->
       exists row0, rows0 !! k = Some row0 /\
                    rows !! k = Some (row0 ++ [heading a'])) /\
    (forall k, (List.length (agent_list (env t)) <= k)%nat ->
               rows !! k = rows0 !! k).
Proof.
  intros Hstep Hrol.
  destruct (step_post _ _ _ _ _ Hstep) as (_ & _ & _ & _ & Hst & Hrows).
  rewrite Hrol in Hrows.
  destruct (robot_orientation_list t') as [rows |]; [| contradiction].
  destruct Hrows as (Hlen & Hpos).
  pose proof (Forall2_length _ _ _ Hst) as Hl.
  exists rows. split_and!; [reflexivity | | exact Hlen | |].
  - destruct (agent_list (env t)) as [| a0 l] eqn:El; [cbn; lia |].
    destruct (proj1 (Hpos (List.length l)) ltac:(cbn; lia))
      as (row0 & _ & H0 & _).
    apply lookup_lt_Some in H0. cbn. lia.
  - intros k a' Hk.
    destruct (proj1 (Hpos k)) as (row0 & a & H0 & Ha & Hr).
    { rewrite Hl. now apply lookup_lt_Some with a'. }
    assert (a = a') as -> by congruence. now exists row0.
  - intros k Hk. now apply (Hpos k).
Qed.

Lemma consensus_simulation_step_records_witness :
  exists t' verified rows,
    consensus_simulation_step (fun _ => 0%Z) still_net
      (recorded_pair_trial 10 12) = Some (t', verified) /\
    robot_orientation_list t' = Some rows /\
    (List.length (agent_list (env (recorded_pair_trial 10 12)))
       <= List.length ([[]; []] : list (list R)))%nat /\
    List.length rows = List.length ([[]; []] : list (list R)) /\
    (forall k a', agent_list (env t') !! k = Some a' ->
       exists row0, ([[]; []] : list (list R)) !! k = Some row0 /\
                    rows !! k = Some (row0 ++ [heading a'])) /\
    (forall k,
       (List.length (agent_list (env (recorded_pair_trial 10 12))) <= k)%nat ->
       rows !! k = ([[]; []] : list (list R)) !! k).
Proof.
  destruct (step_returns (fun _ => 0%Z) still_net (recorded_pair_trial 10 12)
              still_net_total
              (recorded_pair_trial_ready 10 12 ltac:(lra) ltac:(lra)))
    as (t' & v & Hstep).
  destruct (consensus_simulation_step_records _ _ _ _ _ [[]; []] Hstep eq_refl)
    as (rows & Hrows).
  now exists t', v, rows.
Defined.

(** X16. From a state with at least one agent, every agent with its 8-slot
    register, a heading in [0, 360] and a neighbour in range, and under a
    network that always answers with at least four outputs, a trial of any
    length returns, its result lies in [0.01, 1], and it leaves a state of
    the same kind. *)
Theorem trial_returns_in_range rng {Net}
    (activate : Net -> list (option R) -> option (Net * list R))
    (t : Trial Net) time_steps :
  total_network activate -> trial_ready t ->
  exists t' result,
    consensus_simulation_evaluate rng activate t time_steps =
      Some (t', result) /\
    0.01 <= result <= 1 /\ trial_ready t'.
Proof.
  intros Htot Hready.
  destruct (evaluate_loop_returns rng activate time_steps t Htot Hready)
    as (t' & reached & Hloop & Hready').
  unfold consensus_simulation_evaluate. rewrite Hloop.
  cbn [mbind option_bind].
  destruct reached.
  - exists t', 1.0. split_and!; [reflexivity | lra | lra | exact Hready'].
  - pose proof Hready' as (Hne & _ & _ & Hh & _).
    destruct (fitness_range (env t') Hne Hh) as (f & Hf & Hf1 & _).
    rewrite Hf. cbn [mbind option_bind].
    eexists t', _. split; [reflexivity |].
    split; [case_decide; lra | exact Hready'].
Qed.

Lemma trial_returns_in_range_witness :
  exists t' result,
    consensus_simulation_evaluate (fun _ => 0%Z) still_net
      (pair_trial 0 180) 600 = Some (t', result) /\
    0.01 <= result <= 1 /\ trial_ready t'.
Proof.
  apply (trial_returns_in_range (fun _ => 0%Z) still_net (pair_trial 0 180)
           600 still_net_total).
  apply pair_trial_ready; lra.
Defined.

(** X17. A step on a population of fewer than two agents raises, whatever
    the random source and the network: a lone agent has nobody to hear, and
    an empty population has no first heading to compare; so does every
    trial of at least one step. *)
Theorem consensus_simulation_step_needs_two rng {Net}
    (activate : Net -> list (option R) -> option (Net * list R))
    (t : Trial Net) time_steps :
  (List.length (agent_list (env t)) < 2)%nat ->
  consensus_simulation_step rng activate t = None /\
  consensus_simulation_evaluate rng activate t (S time_steps) = None.
Proof.
  intros Hlen.
  assert (Hstep : consensus_simulation_step rng activate t = None).
  { unfold consensus_simulation_step, communication.
    destruct (agent_list (env t)) as [| a [| b l]] eqn:El;
      [| | cbn in Hlen; lia].
    - cbn. unfold consensus_verified. cbn. reflexivity.
    - cbn [List.length seq for_each]. unfold communication_body.
      cbn [lookup list_lookup mbind option_bind].
      rewrite filter_cons, decide_False by (intros [Hne _]; congruence).
      rewrite filter_nil. reflexivity. }
  split; [exact Hstep |].
  unfold consensus_simulation_evaluate. cbn [evaluate_loop].
  now rewrite Hstep.
Qed.

Lemma consensus_simulation_step_needs_two_witness :
  consensus_simulation_step (fun _ => 0%Z) still_net
    (mkTrial (mkEnvironment 100 100 [receiver_100]) tt 0 None) = None /\
  consensus_simulation_evaluate (fun _ => 0%Z) still_net
    (mkTrial (mkEnvironment 100 100 [receiver_100]) tt 0 None) 600 = None.
Proof.
  apply (consensus_simulation_step_needs_two (fun _ => 0%Z) still_net
           (mkTrial (mkEnvironment 100 100 [receiver_100]) tt 0 None) 599).
  cbn. lia.
Defined.

(** ** Construction of the environment *)

Lemma init_loop random len hgt draws0 n : forall i acc,
  foldl (init_body random len hgt) (acc, (draws0 + 3 * i)%nat) (seq i n) =
  (acc ++ (built_agent random len hgt draws0 <$> seq i n),
   (draws0 + 3 * (i + n))%nat).
Proof.
  induction n as [| n IH]; intros i acc.
  - cbn [seq foldl fmap list_fmap]. rewrite app_nil_r, Nat.add_0_r.
    reflexivity.
  - cbn [seq foldl fmap list_fmap]. unfold init_body at 2.
    fold (built_agent random len hgt draws0 i).
    replace (S (S (S (draws0 + 3 * i)))) with (draws0 + 3 * S i)%nat by lia.
    rewrite IH, <- app_assoc. cbn [app].
    f_equal. f_equal. lia.
Qed.

Lemma Environment_init_eq random len hgt N draws0 :
  Environment_init random len hgt N draws0 =
  (mkEnvironment len hgt (built_agent random len hgt draws0 <$> seq 0 N),
   (draws0 + 3 * N)%nat).
Proof.
  unfold Environment_init.
  pose proof (init_loop random len hgt draws0 N 0 []) as H.
  rewrite Nat.mul_0_r, Nat.add_0_r in H. rewrite H. reflexivity.
Qed.

Lemma built_agent_in random len hgt draws0 N a :
  a ∈ built_agent random len hgt draws0 <$> seq 0 N ->
  exists i, (i < N)%nat /\ a = built_agent random len hgt draws0 i.
Proof.
  intros [k Hk]%list_elem_of_lookup.
  rewrite list_lookup_fmap in Hk.
  destruct (seq 0 N !! k) as [i |] eqn:Hi; [| discriminate].
  apply lookup_seq in Hi as [-> Hlt]. injection Hk as <-.
  exists k. now split.
Qed.



Lemma sqrt_6400 : sqrt 6400 = 80.
Proof.
  replace 6400 with (80 * 80) by lra. apply sqrt_square. lra.
Qed.

(** Two points of a field whose diagonal is at most 80 are within range. *)
Lemma distance_in_small_field len hgt p q :
  len * len + hgt * hgt <= 6400 ->
  0 <= x p < len -> 0 <= y p < hgt -> 0 <= x q < len -> 0 <= y q < hgt ->
  distance p q <= 80.
Proof.
  intros Hdiag Hxp Hyp Hxq Hyq. unfold distance. cbn zeta.
  rewrite <- sqrt_6400. apply sqrt_le_1_alt. nra.
Qed.

(** The environment built in a small field, with at least two agents, is
    ready for a trial. *)
Lemma Environment_init_ready random len hgt N draws0 {Net} (n : Net) d :
  (forall k, 0 <= random k < 1) -> 0 < len -> 0 < hgt ->
  len * len + hgt * hgt <= 6400 -> (2 <= N)%nat ->
  trial_ready
    (mkTrial (Environment_init random len hgt N draws0).1 n d None).
Proof.
  intros Hrand Hlen Hhgt Hdiag HN.
  rewrite Environment_init_eq. cbn [fst].
  assert (Hplace : forall i,
            0 <= x (location (built_agent random len hgt draws0 i)) < len /\
            0 <= y (location (built_agent random len hgt draws0 i)) < hgt /\
            0 <= heading (built_agent random len hgt draws0 i) < 360).
  { intros i. unfold built_agent. cbn [location heading init x y].
    pose proof (Hrand (draws0 + 3 * i)%nat).
    pose proof (Hrand (S (draws0 + 3 * i))).
    pose proof (Hrand (S (S (draws0 + 3 * i)))).
    split_and!; nra. }
  assert (Hmem : forall i, (i < N)%nat ->
            built_agent random len hgt draws0 i ∈
              built_agent random len hgt draws0 <$> seq 0 N).
  { intros i Hi. apply list_elem_of_lookup. exists i.
    rewrite list_lookup_fmap, lookup_seq_lt by exact Hi. reflexivity. }
  split_and!; cbn [env agent_list robot_orientation_list].
  - destruct N as [| N]; [lia | discriminate].
  - apply Forall_forall. intros a Ha.
    destruct (built_agent_in _ _ _ _ _ _ Ha) as (i & _ & ->). reflexivity.
  - intros a Ha.
    destruct (built_agent_in _ _ _ _ _ _ Ha) as (i & Hi & ->).
    set (j := if decide (i = 0)%nat then 1%nat else 0%nat).
    assert (Hj : (j < N)%nat /\ j <> i)
      by (unfold j; case_decide; split; lia).
    exists (built_agent random len hgt draws0 j).
    split; [apply Hmem; tauto |]. split.
    + unfold built_agent. cbn [agent_id init]. lia.
    + destruct (Hplace i) as (? & ? & _), (Hplace j) as (? & ? & _).
      now apply distance_in_small_field with len hgt.
  - apply Forall_forall. intros a Ha.
    destruct (built_agent_in _ _ _ _ _ _ Ha) as (i & _ & ->).
    destruct (Hplace i) as (_ & _ & Hh). lra.
  - exact I.
Qed.

(** X19. An environment built with at least two agents in a field whose
    diagonal is at most 80 (length squared plus height squared at most
    6400) can always be simulated: under a network that answers with at
    least four outputs, a trial of any length returns a result in
    [0.01, 1], whatever the random source draws. *)
Theorem small_field_trial_returns random rng {Net}
    (activate : Net -> list (option R) -> option (Net * list R))
    (control_net : Net) len hgt N draws0 time_steps :
  (forall k, 0 <= random k < 1) -> 0 < len -> 0 < hgt ->
  len * len + hgt * hgt <= 6400 -> (2 <= N)%nat ->
  total_network activate ->
  exists t' result,
    consensus_simulation_evaluate rng activate
      (mkTrial (Environment_init random len hgt N draws0).1 control_net
               (Environment_init random len hgt N draws0).2 None)
      time_steps = Some (t', result) /\
    0.01 <= result <= 1.
Proof.
  intros Hrand Hlen Hhgt Hdiag HN Htot.
  destruct (evaluate_returns rng activate
              (mkTrial (Environment_init random len hgt N draws0).1
                       control_net
                       (Environment_init random len hgt N draws0).2 None)
              time_steps Htot)
    as (t' & result & Hev & Hres & _).
  - now apply Environment_init_ready.
  - now exists t', result.
Qed.

Lemma small_field_trial_returns_witness :
  exists t' result,
    consensus_simulation_evaluate (fun _ => 0%Z) still_net
      (mkTrial (Environment_init corner_source 50 50 10 0).1 tt
               (Environment_init corner_source 50 50 10 0).2 None)
      600 = Some (t', result) /\
    0.01 <= result <= 1.
Proof.
  apply (small_field_trial_returns corner_source (fun _ => 0%Z) still_net tt
           50 50 10 0 600); try lra; try lia.
  - intros n. unfold corner_source. case_decide; lra.
  - apply still_net_total.
Defined.

(** X20. When some agent has no other agent within distance 80, every step
    raises, and so does every trial of at least one step, whatever the
    random source and the network: the reference has no guard for an empty
    list of candidates.  The default 100 x 100 field allows such
    placements. *)
Theorem trial_raises_without_neighbour rng {Net}
    (activate : Net -> list (option R) -> option (Net * list R))
    (t : Trial Net) time_steps :
  (exists robot, robot ∈ agent_list (env t) /\
     forall other_robot, other_robot ∈ agent_list (env t) ->
                         ~ in_range robot other_robot) ->
  consensus_simulation_step rng activate t = None /\
  consensus_simulation_evaluate rng activate t (S time_steps) = None.
Proof.
  intros (robot & Hrobot & Halone).
  assert (Hc : communication rng (env t) (draws t) = None).
  { destruct (communication rng (env t) (draws t)) as [r |] eqn:Hc;
      [| reflexivity].
    exfalso.
    destruct (communication_needs_neighbours rng (env t) (draws t)
                ltac:(rewrite Hc; eauto) robot Hrobot) as (o & Ho & Hr).
    exact (Halone o Ho Hr). }
  assert (Hstep : consensus_simulation_step rng activate t = None)
    by (unfold consensus_simulation_step; now rewrite Hc).
  split; [exact Hstep |].
  unfold consensus_simulation_evaluate. cbn [evaluate_loop].
  now rewrite Hstep.
Qed.

Lemma trial_raises_without_neighbour_witness :
  consensus_simulation_step (fun _ => 0%Z) still_net
    (mkTrial (Environment_init corner_source 100 100 2 0).1 tt 6 None)
    = None /\
  consensus_simulation_evaluate (fun _ => 0%Z) still_net
    (mkTrial (Environment_init corner_source 100 100 2 0).1 tt 6 None) 600
    = None.
Proof.
  apply (trial_raises_without_neighbour (fun _ => 0%Z) still_net
           (mkTrial (Environment_init corner_source 100 100 2 0).1 tt 6 None)
           599).
  rewrite Environment_init_eq. cbn [fst env agent_list].
  exists (built_agent corner_source 100 100 0 0).
  split; [left |].
  intros o Ho [Hid Hdist].
  apply elem_of_cons in Ho as [-> | Ho]; [now apply Hid |].
  apply elem_of_cons in Ho as [-> | Ho]; [| inversion Ho].
  revert Hdist. unfold distance, built_agent, corner_source.
  cbn [location init x y]. cbn [Nat.mul Nat.add].
  intros Hdist. apply Rle_not_lt in Hdist. apply Hdist.
  rewrite <- sqrt_6400. apply sqrt_lt_1_alt.
  repeat case_decide; try lia; nra.
Defined.

(** ** Evaluation of a genome *)

Lemma foldr_sum_bounds lo hi l :
  Forall (fun r => lo <= r <= hi) l ->
  INR (List.length l) * lo <= foldr Rplus 0 l <= INR (List.length l) * hi.
Proof.
  induction l as [| r l IH]; intros Hall.
  - cbn. lra.
  - apply Forall_cons in Hall as [Hr Hl]. specialize (IH Hl).
    cbn [foldr]. change (List.length (r :: l)) with (S (List.length l)).
    rewrite S_INR. nra.
Qed.

Lemma np_mean_range lo hi l :
  l <> [] -> Forall (fun r => lo <= r <= hi) l ->
  exists m, np_mean l = Some m /\ lo <= m <= hi.
Proof.
  intros Hne Hall. pose proof (foldr_sum_bounds lo hi l Hall) as Hs.
  destruct l as [| r l]; [congruence |].
  eexists. split; [reflexivity |].
  assert (HN : 0 < INR (List.length (r :: l)))
    by (apply lt_0_INR; cbn; lia).
  set (N := INR (List.length (r :: l))) in *.
  set (s := foldr Rplus 0 (r :: l)) in *.
  split.
  - apply (Rmult_le_reg_r N); [exact HN |].
    replace (s / N * N) with s by (field; lra). lra.
  - apply (Rmult_le_reg_r N); [exact HN |].
    replace (s / N * N) with s by (field; lra). lra.
Qed.

Lemma trial_ready_without_recorder {Net} (t : Trial Net) :
  trial_ready t -> trial_ready (mkTrial (env t) (net t) (draws t) None).
Proof.
  intros (Hne & Hwf & Hnb & Hh & _). now split_and!.
Qed.

Lemma epochs_loop_returns rng {Net}
    (activate : Net -> list (option R) -> option (Net * list R))
    time_steps n : forall e (control_net : Net) d acc,
  total_network activate ->
  trial_ready (mkTrial e control_net d None) ->
  Forall (fun r => 0.01 <= r <= 1) acc ->
  exists e' net' d' l,
    epochs_loop rng activate n e control_net d time_steps acc =
      Some (e', net', d', l) /\
    List.length l = (List.length acc + n)%nat /\
    Forall (fun r => 0.01 <= r <= 1) l.
Proof.
  induction n as [| n IH]; intros e control_net d acc Htot Hready Hacc.
  - exists e, control_net, d, acc. split_and!; [reflexivity | lia | exact Hacc].
  - destruct (evaluate_returns rng activate _ time_steps Htot Hready)
      as (t' & result & Hev & Hres & Hready').
    destruct (IH (env t') (net t') (draws t') (acc ++ [result]) Htot
                (trial_ready_without_recorder t' Hready'))
      as (e' & net' & d' & l & Hloop & Hlen & Hl).
    { apply Forall_app. split; [exact Hacc |]. now constructor. }
    exists e', net', d', l. cbn [epochs_loop]. rewrite Hev.
    cbn [mbind option_bind]. split_and!; [exact Hloop | | exact Hl].
    rewrite Hlen, length_app. cbn. lia.
Qed.



(** ** The whole trial *)

Lemma stepped_same_body a a' : stepped a a' -> same_body a a'.
Proof. intros (? & ? & ? & ? & ? & _). now split_and!. Qed.

Lemma same_body_refl l : Forall2 same_body l l.
Proof.
  apply Forall_Forall2_diag, Forall_forall. intros a _. now split_and!.
Qed.

Lemma same_body_trans l1 l2 l3 :
  Forall2 same_body l1 l2 -> Forall2 same_body l2 l3 ->
  Forall2 same_body l1 l3.
Proof.
  apply Forall2_trans.
  intros a b c (? & ? & ? & ? & ?) (? & ? & ? & ? & ?).
  split_and!; congruence.
Qed.

Lemma evaluate_loop_frame rng {Net}
    (activate : Net -> list (option R) -> option (Net * list R)) n :
  forall (t t' : Trial Net) reached,
  evaluate_loop rng activate n t = Some (t', reached) ->
  length (env t') = length (env t) /\ height (env t') = height (env t) /\
  Forall2 same_body (agent_list (env t)) (agent_list (env t')) /\
  exists k,
    (k <= n)%nat /\
    draws t' = (draws t + k * List.length (agent_list (env t)))%nat /\
    (if reached then (1 <= k)%nat else k = n).
Proof.
  induction n as [| n IH]; intros t t' reached Hloop.
  - cbn in Hloop. injection Hloop as <- <-.
    split_and!; [reflexivity | reflexivity | apply same_body_refl |].
    exists 0%nat. split_and!; [lia | lia | reflexivity].
  - cbn [evaluate_loop] in Hloop.
    destruct (consensus_simulation_step rng activate t) as [[t1 v] |] eqn:Hs;
      [| discriminate].
    cbn [mbind option_bind] in Hloop.
    destruct (step_post _ _ _ _ _ Hs) as (Hd & Hl & Hh & _ & Hst & _).
    assert (Hb1 : Forall2 same_body (agent_list (env t)) (agent_list (env t1)))
      by (eapply Forall2_impl; [exact Hst | apply stepped_same_body]).
    destruct v.
    + injection Hloop as <- <-.
      split_and!; [exact Hl | exact Hh | exact Hb1 |].
      exists 1%nat. split_and!; [lia | lia | lia].
    + destruct (IH t1 t' reached Hloop) as (Hl' & Hh' & Hb' & k & Hk & Hd' & Hr).
      split_and!; [congruence | congruence | |].
      * now apply same_body_trans with (agent_list (env t1)).
      * exists (S k). split_and!; [lia | | destruct reached; lia].
        rewrite Hd', Hd, <- (Forall2_length _ _ _ Hst). lia.
Qed.

(** X24. A trial that returns has moved no agent: ids, locations, radii,
    radar ranges and register lengths are those of the start, and so is the
    field.  It has made one draw per agent for every step it ran: [k] steps
    with [k] at most the budget, at least one step when the result is 1.0
    for consensus, and the whole budget otherwise. *)
Theorem trial_frame rng {Net}
    (activate : Net -> list (option R) -> option (Net * list R))
    (t t' : Trial Net) time_steps result :
  consensus_simulation_evaluate rng activate t time_steps =
    Some (t', result) ->
  length (env t') = length (env t) /\ height (env t') = height (env t) /\
  Forall2 same_body (agent_list (env t)) (agent_list (env t')) /\
  exists k,
    (k <= time_steps)%nat /\
    draws t' = (draws t + k * List.length (agent_list (env t)))%nat /\
    (k = time_steps \/ ((1 <= k)%nat /\ result = 1.0)).
Proof.
  unfold consensus_simulation_evaluate.
  destruct (evaluate_loop rng activate time_steps t) as [[t1 reached] |]
    eqn:Hloop; [| discriminate].
  cbn [mbind option_bind].
  destruct (evaluate_loop_frame _ _ _ _ _ _ Hloop)
    as (Hl & Hh & Hb & k & Hk & Hd & Hr).
  destruct reached.
  - intros [= <- <-]. split_and!; try assumption.
    exists k. split_and!; [exact Hk | exact Hd | right; now split].
  - destruct (fitness (env t1)) as [f |]; [| discriminate].
    cbn [mbind option_bind]. intros [= <- _].
    split_and!; try assumption.
    exists k. split_and!; [exact Hk | exact Hd | now left].
Qed.

Lemma trial_frame_witness :
  exists t' result,
    consensus_simulation_evaluate (fun _ => 0%Z) still_net
      (pair_trial 0 180) 600 = Some (t', result) /\
    length (env t') = length (env (pair_trial 0 180)) /\
    height (env t') = height (env (pair_trial 0 180)) /\
    Forall2 same_body (agent_list (env (pair_trial 0 180)))
            (agent_list (env t')) /\
    exists k,
      (k <= 600)%nat /\
      draws t' =
        (draws (pair_trial 0 180) +
         k * List.length (agent_list (env (pair_trial 0 180))))%nat /\
      (k = 600%nat \/ ((1 <= k)%nat /\ result = 1.0)).
Proof.
  destruct (evaluate_returns (fun _ => 0%Z) still_net (pair_trial 0 180) 600
              still_net_total (pair_trial_ready 0 180 ltac:(lra) ltac:(lra)))
    as (t' & result & Hev & _).
  exists t', result. split; [exact Hev |].
  apply (trial_frame _ _ _ _ _ _ Hev).
Defined.
